(** * docx-preview: the headless DOM shim and the tree normalizer

  A shallow embedding of [src/docx-preview.ts]: [kebabCase],
  [handleXmlNode], [isElement], [isTableCell], [isImage], [initXmlDom] and
  [getFirstElementChild], together with the small part of the JavaScript
  and DOM substrate these functions run on. *)

From Stdlib Require Import String Ascii List ZArith NArith Arith Bool Lia.
From Stdlib Require Import DecimalString.
From Stdlib Require DecimalPos DecimalZ.
Import ListNotations.

Local Open Scope string_scope.
Local Open Scope list_scope.

(** ** JavaScript values

  A property that holds a string or [null]/[undefined] is an
  [option string]; one that holds a number or is unset is an [option Z]
  (spans are integer-valued); one that holds an
  array or an object or is unset is an [option] of a list.  An [if (v)] in
  the source tests truthiness: [null], [undefined], the empty string and
  the number zero are falsy, and every array and every object is truthy,
  the empty ones included. *)
Module JS.

Definition truthy_string (v : option string) : bool :=
  match v with
  | Some s => negb (s =? "")
  | None => false
  end.

Definition truthy_number (v : option Z) : bool :=
  match v with
  | Some z => negb (z =? 0)%Z
  | None => false
  end.

(** An array or object reference: only [null]/[undefined] is falsy. *)
Definition truthy_ref {A : Type} (v : option A) : bool :=
  match v with
  | Some _ => true
  | None => false
  end.

(** [Array.prototype.join] on an array of strings. *)
Definition Array_join (xs : list string) (sep : string) : string :=
  String.concat sep xs.

(** *** [Number.prototype.toString] on an integer-valued number

    An integer [z] stands for the number nearest to it.  Up to [2^53] in
    magnitude every integer is a number and prints as its plain decimal
    numeral.  Above, the digits printed are the shortest ones that still
    denote the same number, followed by zeros, and from [10^21] on they are
    printed in exponent notation. *)

(** The plain decimal numeral of a non-negative integer. *)
Definition decimal (v : Z) : string :=
  NilZero.string_of_int (Z.to_int v).

(** The number nearest to the non-negative integer [v]: 53 significant
    bits, a tie going to the even mantissa. *)
Definition round_to_double (v : Z) : Z :=
  let bits := (Z.log2 v + 1)%Z in
  if (bits <=? 53)%Z then v
  else
    let shift := (bits - 53)%Z in
    let q := Z.shiftr v shift in
    let r := (v - Z.shiftl q shift)%Z in
    let half := Z.shiftl 1 (shift - 1) in
    let q' :=
      if ((half <? r) || ((r =? half) && Z.odd q))%Z then (q + 1)%Z else q in
    Z.shiftl q' shift.

(** The integer with the fewest significant digits that denotes the number
    [d], which has [len] digits: with [k] digits, the two candidates next to
    [d]; of two that fit the nearer one, and of two equally near the one
    with the even last digit. *)
Fixpoint shortest_digits (d len : Z) (k : nat) (steps : nat) : Z :=
  match steps with
  | O => d
  | S steps' =>
      let p := (10 ^ (len - Z.of_nat k))%Z in
      let lo := (d / p * p)%Z in
      let hi := (lo + p)%Z in
      let lo_fits := (round_to_double lo =? d)%Z in
      let hi_fits := (round_to_double hi =? d)%Z in
      if lo_fits && hi_fits
      then
        if (d - lo <? hi - d)%Z then lo
        else if (hi - d <? d - lo)%Z then hi
             else if Z.even (lo / p) then lo else hi
      else if lo_fits then lo
           else if hi_fits then hi
                else shortest_digits d len (S k) steps'
  end.

Fixpoint strip_zeros (s : string) : string :=
  match s with
  | EmptyString => EmptyString
  | String c rest =>
      let r := strip_zeros rest in
      if ((r =? "") && Ascii.eqb c "0")%bool then EmptyString else String c r
  end.

(** The numeral of [v], whose digits after the significant ones are zeros:
    plain up to 21 digits, in exponent notation beyond. *)
Definition print_digits (v : Z) : string :=
  let numeral := decimal v in
  let n := Z.of_nat (String.length numeral) in
  if (n <=? 21)%Z then numeral
  else
    match strip_zeros numeral with
    | EmptyString => numeral
    | String c EmptyString => String c ("e+" ++ decimal (n - 1))
    | String c rest => String c ("." ++ rest ++ "e+" ++ decimal (n - 1))
    end.

Definition print_magnitude (x : Z) : string :=
  if (x <=? 2 ^ 53)%Z then decimal x
  else
    let d := round_to_double x in
    if (2 ^ 1024 <=? d)%Z then "Infinity"
    else
      let len := Z.of_nat (String.length (decimal d)) in
      print_digits (shortest_digits d len 1 (Z.to_nat len)).

Definition Number_toString (z : Z) : string :=
  if (z =? 0)%Z then "0"
  else if (z <? 0)%Z then String "-" (print_magnitude (Z.abs z))
       else print_magnitude (Z.abs z).

(** The string that a property holds, as [setAttribute] or a
    string_value-literal hole [${v}] converts it.  Where the source reads the
    value, the property has passed a truthiness test or is an own property
    of the object, so it does hold a string. *)
Definition string_value (v : option string) : string :=
  match v with
  | Some s => s
  | None => "undefined"
  end.

(** *** Plain objects with string values

    The own enumerable string-keyed properties of an object, in the order
    in which they were created. *)
Definition JSObject : Type := list (string * string).

Fixpoint obj_get (o : JSObject) (key : string) : option string :=
  match o with
  | [] => None
  | (k, v) :: rest => if k =? key then Some v else obj_get rest key
  end.

(** [o[key] = value]: an existing property keeps its place. *)
Fixpoint obj_set (o : JSObject) (key value : string) : JSObject :=
  match o with
  | [] => [(key, value)]
  | (k, v) :: rest =>
      if k =? key then (k, value) :: rest
      else (k, v) :: obj_set rest key value
  end.

Definition digit_of (c : ascii) : option N :=
  let n := N_of_ascii c in
  if ((48 <=? n) && (n <=? 57))%N then Some (n - 48)%N else None.

Fixpoint parse_digits (acc : N) (s : string) : option N :=
  match s with
  | EmptyString => Some acc
  | String c rest =>
      match digit_of c with
      | Some d => parse_digits (acc * 10 + d)%N rest
      | None => None
      end
  end.

(** An array index is the canonical decimal form of an integer in
    [0, 2^32 - 2]. *)
Definition array_index (key : string) : option N :=
  match key with
  | EmptyString => None
  | String c rest =>
      if (Ascii.eqb c "0" && negb (rest =? ""))%bool then None
      else
        match parse_digits 0 key with
        | Some n => if (n <=? 4294967294)%N then Some n else None
        | None => None
        end
  end.

Fixpoint insert_index (x : N * string) (l : list (N * string))
  : list (N * string) :=
  match l with
  | [] => [x]
  | y :: rest =>
      if (fst x <=? fst y)%N then x :: l else y :: insert_index x rest
  end.

Definition index_keys (o : JSObject) : list (N * string) :=
  fold_right
    (fun kv acc =>
       match array_index (fst kv) with
       | Some n => insert_index (n, fst kv) acc
       | None => acc
       end)
    [] o.

Definition is_index (key : string) : bool :=
  match array_index key with
  | Some _ => true
  | None => false
  end.

Definition named_keys (o : JSObject) : list string :=
  filter (fun k => negb (is_index k)) (map fst o).

(** [Object.keys]: array indices in ascending numeric order, then the
    other keys in creation order. *)
Definition Object_keys (o : JSObject) : list string :=
  map snd (index_keys o) ++ named_keys o.

End JS.

(** ** The DOM substrate

  The tree that the headless document implementation builds.  An element
  has a tag name, an attribute list and a child list, and carries the
  expando properties the renderer writes on it; a character-data node
  (text, CDATA section, processing instruction, comment) has its data and
  no child list: its [childNodes] is [null], which is what the guard in
  front of the child loop of [handleXmlNode] tests. *)
Module Dom.

Record HTMLElement (N : Type) : Type := mkElement {
  tagName : string;
  attributes : list (string * string);
  childNodes : list N;
  className : option string;
  _classList : option (list string);
  innerHTML : option string;
  _style : option JS.JSObject;
  rowSpan : option Z;
  colSpan : option Z;
  src : option string
}.

Arguments mkElement {N}.
Arguments tagName {N}.
Arguments attributes {N}.
Arguments childNodes {N}.
Arguments className {N}.
Arguments _classList {N}.
Arguments innerHTML {N}.
Arguments _style {N}.
Arguments rowSpan {N}.
Arguments colSpan {N}.
Arguments src {N}.

Inductive CharKind : Type :=
| TEXT_NODE
| CDATA_SECTION_NODE
| PROCESSING_INSTRUCTION_NODE
| COMMENT_NODE.

#[warnings="-register-all"]
Inductive Node : Type :=
| Element (e : HTMLElement Node)
| CharacterData (kind : CharKind) (data : string).

Definition Elem : Type := HTMLElement Node.

Definition nodeType (n : Node) : Z :=
  match n with
  | Element _ => 1
  | CharacterData TEXT_NODE _ => 3
  | CharacterData CDATA_SECTION_NODE _ => 4
  | CharacterData PROCESSING_INSTRUCTION_NODE _ => 7
  | CharacterData COMMENT_NODE _ => 8
  end%Z.

(** [node.childNodes], [None] standing for [null]. *)
Definition childNodesOf (n : Node) : option (list Node) :=
  match n with
  | Element e => Some (childNodes e)
  | CharacterData _ _ => None
  end.

(** *** Property writes on an element *)
Section Setters.
Context {N : Type}.

Definition set_attributes (e : HTMLElement N) (a : list (string * string)) :=
  mkElement (tagName e) a (childNodes e) (className e) (_classList e)
    (innerHTML e) (_style e) (rowSpan e) (colSpan e) (src e).

Definition set_childNodes (e : HTMLElement N) (cs : list N) :=
  mkElement (tagName e) (attributes e) cs (className e) (_classList e)
    (innerHTML e) (_style e) (rowSpan e) (colSpan e) (src e).

Definition set_className (e : HTMLElement N) (v : option string) :=
  mkElement (tagName e) (attributes e) (childNodes e) v (_classList e)
    (innerHTML e) (_style e) (rowSpan e) (colSpan e) (src e).

Definition set_classList (e : HTMLElement N) (v : option (list string)) :=
  mkElement (tagName e) (attributes e) (childNodes e) (className e) v
    (innerHTML e) (_style e) (rowSpan e) (colSpan e) (src e).

Definition set_innerHTML (e : HTMLElement N) (v : option string) :=
  mkElement (tagName e) (attributes e) (childNodes e) (className e)
    (_classList e) v (_style e) (rowSpan e) (colSpan e) (src e).

Definition set_style (e : HTMLElement N) (v : option JS.JSObject) :=
  mkElement (tagName e) (attributes e) (childNodes e) (className e)
    (_classList e) (innerHTML e) v (rowSpan e) (colSpan e) (src e).

Definition set_src (e : HTMLElement N) (v : option string) :=
  mkElement (tagName e) (attributes e) (childNodes e) (className e)
    (_classList e) (innerHTML e) (_style e) (rowSpan e) (colSpan e) v.
End Setters.

(** *** Attributes *)
Fixpoint attr_get (attrs : list (string * string)) (name : string)
  : option string :=
  match attrs with
  | [] => None
  | (k, v) :: rest => if k =? name then Some v else attr_get rest name
  end.

(** A new attribute goes to the end of the list, an existing one is
    replaced where it stands. *)
Fixpoint attr_set (attrs : list (string * string)) (name value : string)
  : list (string * string) :=
  match attrs with
  | [] => [(name, value)]
  | (k, v) :: rest =>
      if k =? name then (k, value) :: rest
      else (k, v) :: attr_set rest name value
  end.

Definition getAttribute {N : Type} (e : HTMLElement N) (name : string)
  : option string :=
  attr_get (attributes e) name.

Definition setAttribute {N : Type} (e : HTMLElement N) (name value : string)
  : HTMLElement N :=
  set_attributes e (attr_set (attributes e) name value).

(** [ownerDocument.createTextNode(data)] *)
Definition createTextNode (data : string) : Node :=
  CharacterData TEXT_NODE data.

(** [node.appendChild(child)] for a child that has no parent yet. *)
Definition appendChild (e : Elem) (child : Node) : Elem :=
  set_childNodes e (childNodes e ++ [child]).

End Dom.

Import JS Dom.

(** ** The source functions *)

Definition is_upper (c : ascii) : bool :=
  let n := N_of_ascii c in ((65 <=? n) && (n <=? 90))%N.

(** [char.toLowerCase()] for a character the pattern [[A-Z]] matched. *)
Definition toLowerCase (c : ascii) : ascii :=
  ascii_of_N (N_of_ascii c + 32).

(** [property.replace(/[A-Z]/g, char => `-${char.toLowerCase()}`)].  The
    pattern has no anchor: it matches every upper-case ASCII letter of the
    string, wherever it stands. *)
Fixpoint kebabCase (property : string) : string :=
  match property with
  | EmptyString => EmptyString
  | String c rest =>
      if is_upper c
      then String "-" (String (toLowerCase c) (kebabCase rest))
      else String c (kebabCase rest)
  end.

Definition isElement (value : Node) : bool :=
  (nodeType value =? 1)%Z.

Definition isTableCell (value : Elem) : bool :=
  tagName value =? "td".

Definition isImage (value : Elem) : bool :=
  tagName value =? "img".

(** *** The accessors the shim defines

    [get() { return this._style || (this._style = {}); }] and its twin for
    the class list: a read returns the backing value and, when there is none
    yet, stores an empty one first. *)
Definition get_style (e : Elem) : JSObject * Elem :=
  match _style e with
  | Some o => (o, e)
  | None => ([], set_style e (Some []))
  end.

Definition put_style (e : Elem) (value : option JSObject) : Elem :=
  set_style e value.

Definition get_classList (e : Elem) : list string * Elem :=
  match _classList e with
  | Some l => (l, e)
  | None => ([], set_classList e (Some []))
  end.

Definition put_classList (e : Elem) (value : option (list string)) : Elem :=
  set_classList e value.

(** *** [handleXmlNode]: the six rules, one definition per [if]

    Each rule takes the element as the statements before it left it and
    returns it as its own statements leave it.  [node.classList] and
    [node.style] are reads through the accessors above. *)

Definition rule_className (node : Elem) : Elem :=
  if truthy_string (className node)
  then
    let node := setAttribute node "class" (string_value (className node)) in
    set_className node None
  else node.

Definition rule_classList (node : Elem) : Elem :=
  if truthy_ref (_classList node)
  then
    let (tokens, node) := get_classList node in
    let node := setAttribute node "class" (Array_join tokens " ") in
    set_classList node None
  else node.

Definition rule_innerHTML (node : Elem) : Elem :=
  if truthy_string (innerHTML node)
  then
    let textNode := createTextNode (string_value (innerHTML node)) in
    let node := appendChild node textNode in
    set_innerHTML node None
  else node.

Definition rule_style (node : Elem) : Elem :=
  if truthy_ref (_style node)
  then
    let (style, node) := get_style node in
    let styles :=
      map (fun key =>
             (kebabCase key ++ ": "
                ++ string_value (obj_get (fst (get_style node)) key))%string)
          (Object_keys style) in
    let node := setAttribute node "style" (Array_join styles "; ") in
    set_style node None
  else node.

Definition rule_rowSpan (node : Elem) : Elem :=
  match rowSpan node with
  | Some r =>
      if truthy_number (Some r)
      then setAttribute node "rowspan" (Number_toString r)
      else node
  | None => node
  end.

Definition rule_colSpan (node : Elem) : Elem :=
  match colSpan node with
  | Some c =>
      if truthy_number (Some c)
      then setAttribute node "colspan" (Number_toString c)
      else node
  | None => node
  end.

Definition rule_tag (node : Elem) : Elem :=
  if isTableCell node
  then rule_colSpan (rule_rowSpan node)
  else if isImage node && truthy_string (src node)
       then
         let node := setAttribute node "src" (string_value (src node)) in
         set_src node None
       else node.

(** The body of [if (isElement(node)) { ... }]. *)
Definition element_rules (node : Elem) : Elem :=
  rule_tag
    (rule_style (rule_innerHTML (rule_classList (rule_className node)))).

Definition apply_rules (node : Node) : Node :=
  match node with
  | Element e => Element (element_rules e)
  | CharacterData _ _ => node
  end.

(** [list[i] = v] on a child list. *)
Fixpoint store_child (cs : list Node) (i : nat) (v : Node) : list Node :=
  match cs, i with
  | [], _ => []
  | _ :: rest, O => v :: rest
  | c :: rest, S j => c :: store_child rest j v
  end.

(** The loop [for (let i = 0; i < node.childNodes.length; i++)] with the
    body [handle(node.childNodes[i])]: the length is read again on every
    turn, and the call changes the child in place.  [handle] stands for the
    recursive call; one unit of fuel pays for one evaluation of the loop
    condition. *)
Fixpoint child_loop (handle : Node -> option Node) (fuel : nat) (i : nat)
  (cs : list Node) : option (list Node) :=
  match fuel with
  | O => None
  | S fuel' =>
      if (i <? List.length cs)%nat
      then
        match nth_error cs i with
        | Some c =>
            match handle c with
            | Some c' => child_loop handle fuel' (S i) (store_child cs i c')
            | None => None
            end
        | None => None
        end
      else Some cs
  end.

(** [handleXmlNode] with a bound on the depth of calls and on the number of
    loop turns; [None] when the bound is reached.  The [depth] argument of
    the source is passed along and never read.  The [match] on the node is
    the test [if (node.childNodes)]: an element has a child list, a
    character-data node has [null]. *)
Fixpoint handleXmlNode_fuel (fuel : nat) (node : Node) : option Node :=
  match fuel with
  | O => None
  | S fuel' =>
      let node := if isElement node then apply_rules node else node in
      match node with
      | Element e =>
          match
            child_loop (handleXmlNode_fuel fuel') fuel' 0 (childNodes e)
          with
          | Some cs => Some (Element (set_childNodes e cs))
          | None => None
          end
      | CharacterData _ _ => Some node
      end
  end.

(** A bound that is enough for [node]. *)
Fixpoint fuel_for (node : Node) : nat :=
  match node with
  | Element e =>
      S (S (S (List.length (childNodes e)))
         + list_max (map fuel_for (childNodes e)))
  | CharacterData _ _ => 1
  end.

(** [handleXmlNode(node)]: the tree the call leaves behind. *)
Definition handleXmlNode (node : Node) : Node :=
  match handleXmlNode_fuel (fuel_for node) node with
  | Some r => r
  | None => node
  end.

(** *** [getFirstElementChild] *)

(** The outcome of a call that may throw. *)
Inductive Completion (A : Type) : Type :=
| Return (value : A)
| Throw.

Arguments Return {A}.
Arguments Throw {A}.

(** The [for] loop of [getFirstElementChild]: the first child, in child
    order, whose [nodeType] is 1. *)
Fixpoint first_element (children : list Node) : option Node :=
  match children with
  | [] => None
  | c :: rest =>
      if (nodeType c =? 1)%Z then Some c else first_element rest
  end.

(** [getFirstElementChild(node)], [None] standing for [null].  Reading
    [children.length] on a [null] child list throws. *)
Definition getFirstElementChild (node : option Node)
  : Completion (option Node) :=
  match node with
  | None => Return None
  | Some n =>
      match childNodesOf n with
      | Some children => Return (first_element children)
      | None => Throw
      end
  end.

(** *** [initXmlDom] and the prototype it patches *)

Inductive Getter : Type :=
| firstElementChild_getter
| style_getter
| classList_getter
| host_getter (id : nat).

Inductive Setter : Type :=
| style_setter
| classList_setter
| host_setter (id : nat).

(** An own property of the prototype: a data property, or an accessor with
    its functions. *)
Inductive Property : Type :=
| DataProperty (configurable : bool)
| AccessorProperty (get : option Getter) (set : option Setter)
    (configurable : bool).

Record Prototype : Type := mkPrototype {
  own : list (string * Property);
  extensible : bool
}.

Fixpoint own_get (props : list (string * Property)) (name : string)
  : option Property :=
  match props with
  | [] => None
  | (k, p) :: rest => if k =? name then Some p else own_get rest name
  end.

Fixpoint own_replace (props : list (string * Property)) (name : string)
  (p : Property) : list (string * Property) :=
  match props with
  | [] => []
  | (k, q) :: rest =>
      if k =? name then (k, p) :: rest
      else (k, q) :: own_replace rest name p
  end.

Definition hasOwnProperty (proto : Prototype) (name : string) : bool :=
  match own_get (own proto) name with
  | Some _ => true
  | None => false
  end.

Definition or_else {A : Type} (x y : option A) : option A :=
  match x with
  | Some _ => x
  | None => y
  end.

Definition Getter_eqb (f g : Getter) : bool :=
  match f, g with
  | firstElementChild_getter, firstElementChild_getter => true
  | style_getter, style_getter => true
  | classList_getter, classList_getter => true
  | host_getter i, host_getter j => Nat.eqb i j
  | _, _ => false
  end.

Definition Setter_eqb (f g : Setter) : bool :=
  match f, g with
  | style_setter, style_setter => true
  | classList_setter, classList_setter => true
  | host_setter i, host_setter j => Nat.eqb i j
  | _, _ => false
  end.

(** A field of a descriptor agrees with what a property holds when the
    descriptor has no such field or the field is the very function the
    property holds. *)
Definition same_function {A : Type} (eqb : A -> A -> bool)
  (field current : option A) : bool :=
  match field, current with
  | None, _ => true
  | Some f, Some g => eqb f g
  | Some _, None => false
  end.

(** The property that a descriptor with these fields creates: an accessor,
    or a data property when it has neither field; it is neither
    configurable nor enumerable. *)
Definition new_property (get : option Getter) (set : option Setter)
  : Property :=
  match get, set with
  | None, None => DataProperty false
  | _, _ => AccessorProperty get set false
  end.

(** [Object.defineProperty(proto, name, { get, set })], a [None] argument
    being a field the descriptor does not have and a [None] result the
    [TypeError].  A [Getter] or [Setter] names one function object.  A new
    property needs an extensible object.  On an existing property a
    descriptor without fields changes nothing; a configurable property
    takes the fields of the descriptor; one that is not configurable
    accepts only the functions it already holds. *)
Definition Object_defineProperty (proto : Prototype) (name : string)
  (get : option Getter) (set : option Setter) : option Prototype :=
  match own_get (own proto) name with
  | None =>
      if extensible proto
      then Some (mkPrototype
                   (own proto ++ [(name, new_property get set)])
                   (extensible proto))
      else None
  | Some current =>
      match get, set with
      | None, None => Some proto
      | _, _ =>
          match current with
          | DataProperty true =>
              Some (mkPrototype
                      (own_replace (own proto) name
                         (AccessorProperty get set true))
                      (extensible proto))
          | AccessorProperty g s true =>
              Some (mkPrototype
                      (own_replace (own proto) name
                         (AccessorProperty (or_else get g) (or_else set s)
                            true))
                      (extensible proto))
          | DataProperty false => None
          | AccessorProperty g s false =>
              if same_function Getter_eqb get g
                 && same_function Setter_eqb set s
              then Some proto
              else None
          end
      end
  end.

(** One [if (!proto.hasOwnProperty(name)) { Object.defineProperty(...) }]. *)
Definition define_if_missing (proto : Prototype) (name : string)
  (get : option Getter) (set : option Setter) : option Prototype :=
  if negb (hasOwnProperty proto name)
  then Object_defineProperty proto name get set
  else Some proto.

Definition bind {A B : Type} (x : option A) (f : A -> option B) : option B :=
  match x with
  | Some a => f a
  | None => None
  end.

(** [initXmlDom()], on the prototype as the call finds it. *)
Definition initXmlDom (IS_BROWSER : bool) (proto : Prototype)
  : option Prototype :=
  if IS_BROWSER then Some proto
  else
    bind (define_if_missing proto "firstElementChild"
            (Some firstElementChild_getter) None)
      (fun proto =>
    bind (define_if_missing proto "style"
            (Some style_getter) (Some style_setter))
      (fun proto =>
    define_if_missing proto "classList"
      (Some classList_getter) (Some classList_setter))).

(** ** Vocabulary of the statements *)

(** [node_in m n]: [m] is [n] or one of its descendants. *)
Inductive node_in (m : Node) : Node -> Prop :=
| node_in_self : node_in m m
| node_in_child (e : Elem) (c : Node) :
    In c (childNodes e) -> node_in m c -> node_in m (Element e).

Definition standard_names : list string :=
  ["class"; "style"; "rowspan"; "colspan"; "src"].

(** The three properties the shim is about. *)
Definition shim_names : list string :=
  ["firstElementChild"; "style"; "classList"].

Definition shim_property (name : string) : Property :=
  if name =? "firstElementChild"
  then AccessorProperty (Some firstElementChild_getter) None false
  else if name =? "style"
       then AccessorProperty (Some style_getter) (Some style_setter) false
       else AccessorProperty (Some classList_getter) (Some classList_setter)
              false.

(** An element on which no rule has anything left to do. *)
Definition settled (x : Elem) : Prop :=
  truthy_string (className x) = false
  /\ _classList x = None
  /\ truthy_string (innerHTML x) = false
  /\ _style x = None
  /\ (isTableCell x = true ->
      (truthy_number (rowSpan x) = true ->
       attr_get (attributes x) "rowspan" = option_map Number_toString (rowSpan x))
      /\ (truthy_number (colSpan x) = true ->
          attr_get (attributes x) "colspan"
          = option_map Number_toString (colSpan x)))
  /\ (isTableCell x = false -> isImage x = true ->
      truthy_string (src x) = false).

(** The shim properties that [initXmlDom] has to add to [proto]. *)
Definition missing (IS_BROWSER : bool) (proto : Prototype) : list string :=
  if IS_BROWSER then []
  else filter (fun name => negb (hasOwnProperty proto name)) shim_names.

(** ** Definitions for the proofs *)

(** Induction on a node with the hypothesis available for every child. *)
Fixpoint Node_children_ind (P : Node -> Prop)
  (HElement : forall e, Forall P (childNodes e) -> P (Element e))
  (HCharacterData : forall kind data, P (CharacterData kind data))
  (n : Node) : P n :=
  match n with
  | Element e =>
      HElement e
        ((fix children (l : list Node) : Forall P l :=
            match l with
            | [] => Forall_nil P
            | c :: rest =>
                Forall_cons c
                  (Node_children_ind P HElement HCharacterData c)
                  (children rest)
            end) (childNodes e))
  | CharacterData kind data => HCharacterData kind data
  end.

(** The text node that the injected-markup rule appends, if any. *)
Definition appended_text (e : Elem) : list Node :=
  if truthy_string (innerHTML e)
  then [createTextNode (string_value (innerHTML e))]
  else [].

(** The result of the pass by recursion on the tree as it was before the
    pass; [handleXmlNode_normal_form] below shows it is what the loop
    computes. *)
Fixpoint normal_form (n : Node) : Node :=
  match n with
  | Element e =>
      Element (set_childNodes (element_rules e)
                 (map normal_form (childNodes e) ++ appended_text e))
  | CharacterData _ _ => n
  end.

(** *** The attribute list after each rule

    What each rule does to the attribute list [a], read off the fields of
    the element [e] as it was before the pass. *)
Definition className_attrs (e : Elem) (a : list (string * string)) :=
  if truthy_string (className e)
  then attr_set a "class" (string_value (className e))
  else a.

Definition classList_attrs (e : Elem) (a : list (string * string)) :=
  match _classList e with
  | Some tokens => attr_set a "class" (Array_join tokens " ")
  | None => a
  end.

Definition style_text (o : JSObject) : string :=
  Array_join
    (map (fun key =>
            (kebabCase key ++ ": " ++ string_value (obj_get o key))%string)
       (Object_keys o))
    "; ".

Definition style_attrs (e : Elem) (a : list (string * string)) :=
  match _style e with
  | Some o => attr_set a "style" (style_text o)
  | None => a
  end.

Definition span_attr (name : string) (v : option Z)
  (a : list (string * string)) :=
  match v with
  | Some r => if (r =? 0)%Z then a else attr_set a name (Number_toString r)
  | None => a
  end.

Definition tag_attrs (e : Elem) (a : list (string * string)) :=
  if isTableCell e
  then span_attr "colspan" (colSpan e) (span_attr "rowspan" (rowSpan e) a)
  else if isImage e && truthy_string (src e)
       then attr_set a "src" (string_value (src e))
       else a.

Definition final_attrs (e : Elem) : list (string * string) :=
  tag_attrs e
    (style_attrs e (classList_attrs e (className_attrs e (attributes e)))).

(** ** Sample nodes *)

Definition cell_2_3 : Elem :=
  mkElement "td" [] [] None None None None (Some 2%Z) (Some 3%Z) None.

Definition upper_cell : Elem :=
  mkElement "TD" [("id", "c")] [] None None None None (Some 2%Z) (Some 3%Z)
    (Some "a.png").

Definition div_named_empty_list : Elem :=
  mkElement "div" [] [] (Some "a") (Some []) None None None None None.

Definition div_tokens : Elem :=
  mkElement "div" [("class", "old")] [] (Some "a") (Some ["x"; "y"]) None None
    None None None.

Definition div_empty_style : Elem :=
  mkElement "div" [] [] None None None (Some []) None None None.

Definition div_styled : Elem :=
  mkElement "div" [] [] None None None
    (Some (obj_set (obj_set [] "fontSize" "12pt") "color" "red"))
    None None None.

Definition div_markup : Elem :=
  mkElement "div" [] [Element cell_2_3] None None (Some "Hello & <b>") None
    None None None.

(** A root holding one table cell with row-span 2, class tokens [x] and
    injected markup, and a comment. *)
Definition sample_tree : Node :=
  Element
    (mkElement "div" [("id", "root")]
       [Element
          (mkElement "td" [] [] None (Some ["x"]) (Some "Hello & <b>") None
             (Some 2%Z) None None);
        CharacterData COMMENT_NODE "c"]
       None None None None None None None).

Definition sample_tree_normalized : Node :=
  Element
    (mkElement "div" [("id", "root")]
       [Element
          (mkElement "td" [("class", "x"); ("rowspan", "2")]
             [CharacterData TEXT_NODE "Hello & <b>"] None None None None
             (Some 2%Z) None None);
        CharacterData COMMENT_NODE "c"]
       None None None None None None None).

Definition cell_2_3_normalized : Elem :=
  mkElement "td" [("rowspan", "2"); ("colspan", "3")] [] None None None None
    (Some 2%Z) (Some 3%Z) None.

Definition div_mixed : Elem :=
  mkElement "div" []
    [CharacterData TEXT_NODE "t"; CharacterData COMMENT_NODE "c";
     Element cell_2_3; Element div_tokens]
    None None None None None None None.

(** A prototype as the headless implementation provides it. *)
Definition bare_prototype : Prototype :=
  mkPrototype
    [("nodeType", DataProperty true); ("appendChild", DataProperty true)]
    true.

(** The same prototype once the shim is installed. *)
Definition patched_prototype : Prototype :=
  mkPrototype
    [("nodeType", DataProperty true); ("appendChild", DataProperty true);
     ("firstElementChild",
      AccessorProperty (Some firstElementChild_getter) None false);
     ("style", AccessorProperty (Some style_getter) (Some style_setter) false);
     ("classList",
      AccessorProperty (Some classList_getter) (Some classList_setter) false)]
    true.

(** ** The options and the pipeline *)

(** A value an option can hold. *)
Inductive JSValue : Type :=
| JSUndefined
| JSBoolean (b : bool)
| JSString (s : string).

(** An options object: its own properties, in creation order. *)
Definition Options : Type := list (string * JSValue).

Fixpoint option_get (o : Options) (key : string) : option JSValue :=
  match o with
  | [] => None
  | (k, v) :: rest => if k =? key then Some v else option_get rest key
  end.

Fixpoint option_set (o : Options) (key : string) (value : JSValue)
  : Options :=
  match o with
  | [] => [(key, value)]
  | (k, v) :: rest =>
      if k =? key then (k, value) :: rest
      else (k, v) :: option_set rest key value
  end.

Definition defaultOptions : Options :=
  [("ignoreHeight", JSBoolean false);
   ("ignoreWidth", JSBoolean false);
   ("ignoreFonts", JSBoolean false);
   ("breakPages", JSBoolean true);
   ("debug", JSBoolean false);
   ("experimental", JSBoolean false);
   ("className", JSString "docx");
   ("inWrapper", JSBoolean true);
   ("trimXmlDeclaration", JSBoolean true);
   ("ignoreLastRenderedPageBreak", JSBoolean true);
   ("renderHeaders", JSBoolean true);
   ("renderFooters", JSBoolean true);
   ("renderFootnotes", JSBoolean true);
   ("renderEndnotes", JSBoolean true);
   ("useBase64URL", JSBoolean false);
   ("renderChanges", JSBoolean false);
   ("renderComments", JSBoolean false)].

(** The order in which the own keys [ks] of an object are visited: array
    indices in ascending order, then the other keys in creation order. *)
Definition ordered_keys (ks : list string) : list string :=
  map snd
    (fold_right
       (fun k acc =>
          match array_index k with
          | Some n => insert_index (n, k) acc
          | None => acc
          end)
       [] ks)
  ++ filter (fun k => negb (is_index k)) ks.

(** One [...source] of an object literal: every own property of [source]
    is assigned on the object under construction. *)
Definition copy_properties (target source : Options) : Options :=
  fold_left
    (fun acc key =>
       match option_get source key with
       | Some v => option_set acc key v
       | None => acc
       end)
    (ordered_keys (map fst source)) target.

(** [{ ...defaultOptions, ...userOptions }]; spreading [undefined] copies
    nothing. *)
Definition merge_options (userOptions : option Options) : Options :=
  let ops := copy_properties [] defaultOptions in
  match userOptions with
  | Some user => copy_properties ops user
  | None => ops
  end.

(** The outcome of an asynchronous call once it has settled. *)
Inductive Promise (E A : Type) : Type :=
| Resolved (value : A)
| Rejected (reason : E).

Arguments Resolved {E A}.
Arguments Rejected {E A}.

(** [await p] followed by the rest of the function. *)
Definition await {E A B : Type} (p : Promise E A) (k : A -> Promise E B)
  : Promise E B :=
  match p with
  | Resolved a => k a
  | Rejected reason => Rejected reason
  end.

(** The root that [createElement('div')] returns. *)
Definition createElement (tag : string) : Elem :=
  mkElement tag [] [] None None None None None None None.

(** The entry points, over the collaborators they call: [load] is
    [WordDocument.load(data, new DocumentParser(ops), ops)], [render] is
    what [new HtmlRenderer(doc).render(document, bodyContainer, undefined,
    ops)] leaves in the body container, [serializeToString] and [outerHTML]
    are the two ways to print the root. *)
Section Pipeline.
Context {Data Doc Err : Type}.
Variable load : Data -> Options -> Promise Err Doc.
Variable render : Doc -> Elem -> Options -> Promise Err Elem.
Variable serializeToString : Node -> string.
Variable outerHTML : Node -> string.

Definition parseAsync (data : Data) (userOptions : option Options)
  : Promise Err Doc :=
  let ops := merge_options userOptions in
  load data ops.

Definition renderDocument (document : Doc) (bodyContainer : Elem)
  (userOptions : option Options) : Promise Err Elem :=
  let ops := merge_options userOptions in
  render document bodyContainer ops.

Definition renderAsync (data : Data) (bodyContainer : Elem)
  (userOptions : option Options) : Promise Err (Doc * Elem) :=
  await (parseAsync data userOptions) (fun doc =>
  await (renderDocument doc bodyContainer userOptions) (fun bodyContainer =>
  Resolved (doc, bodyContainer))).

Definition renderToHtmlElementAsync (IS_BROWSER : bool) (data : Data)
  (userOptions : option Options) : Promise Err Node :=
  if IS_BROWSER
  then
    let root := createElement "div" in
    await (renderAsync data root userOptions) (fun r =>
    Resolved (Element (snd r)))
  else
    let root := createElement "div" in
    await (renderAsync data root userOptions) (fun r =>
    let root := handleXmlNode (Element (snd r)) in
    Resolved root).

Definition renderToHtmlAsync (IS_BROWSER : bool) (data : Data)
  (userOptions : option Options) : Promise Err string :=
  if IS_BROWSER
  then
    await (renderToHtmlElementAsync IS_BROWSER data userOptions) (fun root =>
    Resolved (outerHTML root))
  else
    await (renderToHtmlElementAsync IS_BROWSER data userOptions) (fun root =>
    Resolved (serializeToString root)).

End Pipeline.

(** ** Measures of a tree and of a string *)

Fixpoint count_upper (s : string) : nat :=
  match s with
  | EmptyString => 0
  | String c rest => (if is_upper c then 1 else 0) + count_upper rest
  end.

Fixpoint node_count (n : Node) : nat :=
  match n with
  | Element e => S (list_sum (map node_count (childNodes e)))
  | CharacterData _ _ => 1
  end.

Fixpoint element_count (n : Node) : nat :=
  match n with
  | Element e => S (list_sum (map element_count (childNodes e)))
  | CharacterData _ _ => 0
  end.

(** The number of elements that hold injected markup. *)
Fixpoint markup_count (n : Node) : nat :=
  match n with
  | Element e =>
      (if truthy_string (innerHTML e) then 1 else 0)
      + list_sum (map markup_count (childNodes e))
  | CharacterData _ _ => 0
  end.

(** [extends a a']: the attribute list [a'] keeps the names of [a] in
    place and adds standard names that [a] did not have, each once. *)
Definition extends (a a' : list (string * string)) : Prop :=
  exists added,
    map fst a' = map fst a ++ added
    /\ NoDup added
    /\ (forall n, In n added -> In n standard_names /\ ~ In n (map fst a)).

(** The node that a sequence of child indices reaches from [n]. *)
Fixpoint node_at (path : list nat) (n : Node) : option Node :=
  match path with
  | [] => Some n
  | i :: rest =>
      match n with
      | Element e =>
          match nth_error (childNodes e) i with
          | Some c => node_at rest c
          | None => None
          end
      | CharacterData _ _ => None
      end
  end.

(** ** More sample inputs *)

Definition img_with_source : Elem :=
  mkElement "img" [("alt", "x")] [] None None None None (Some 2%Z) None
    (Some "data:image/png;base64,AAAA").

Definition cell_with_source : Elem :=
  mkElement "td" [] [] None None None None None None (Some "a.png").

Definition user_options : Options :=
  [("className", JSUndefined); ("debug", JSBoolean true);
   ("extra", JSString "x")].

Definition sealed_prototype : Prototype :=
  mkPrototype [("style", DataProperty false)] false.

(** ** Theorems *)

(** *** Runs on sample inputs *)

Example kebabCase_fontSize : kebabCase "fontSize" = "font-size".
Proof. reflexivity. Qed.

Example Object_keys_order :
  Object_keys [("b", "1"); ("10", "2"); ("2", "3"); ("a", "4"); ("01", "5")]
  = ["2"; "10"; "b"; "a"; "01"].
Proof. reflexivity. Qed.

Example handleXmlNode_sample_tree :
  handleXmlNode sample_tree = sample_tree_normalized.
Proof. reflexivity. Qed.

Example handleXmlNode_fuel_sample_tree :
  handleXmlNode_fuel 3 sample_tree = None
  /\ handleXmlNode_fuel 4 sample_tree = Some sample_tree_normalized.
Proof. split; reflexivity. Qed.

(** *** What the rules leave in each field of an element *)

Ltac unfold_rules :=
  unfold rule_tag, rule_colSpan, rule_rowSpan, rule_style,
    rule_innerHTML, rule_classList, rule_className, get_style, get_classList,
    isTableCell, isImage, appendChild, setAttribute,
    truthy_ref, truthy_number, truthy_string.

Lemma rule_className_eq (e : Elem) :
  rule_className e
  = mkElement (tagName e) (className_attrs e (attributes e)) (childNodes e)
      (if truthy_string (className e) then None else className e)
      (_classList e) (innerHTML e) (_style e) (rowSpan e) (colSpan e) (src e).
Proof.
  destruct e as [tag attrs cs cn cl ih st rs cspan sr].
  unfold className_attrs; unfold_rules; cbn.
  destruct cn as [s|]; [destruct (s =? "")|]; reflexivity.
Qed.

Lemma rule_classList_eq (e : Elem) :
  rule_classList e
  = mkElement (tagName e) (classList_attrs e (attributes e)) (childNodes e)
      (className e) None (innerHTML e) (_style e) (rowSpan e) (colSpan e)
      (src e).
Proof.
  destruct e as [tag attrs cs cn cl ih st rs cspan sr].
  unfold classList_attrs; unfold_rules; cbn.
  destruct cl; reflexivity.
Qed.

Lemma rule_innerHTML_eq (e : Elem) :
  rule_innerHTML e
  = mkElement (tagName e) (attributes e) (childNodes e ++ appended_text e)
      (className e) (_classList e)
      (if truthy_string (innerHTML e) then None else innerHTML e)
      (_style e) (rowSpan e) (colSpan e) (src e).
Proof.
  destruct e as [tag attrs cs cn cl ih st rs cspan sr].
  unfold appended_text; unfold_rules; cbn.
  destruct ih as [s|]; [destruct (s =? "")|]; cbn;
    rewrite ?app_nil_r; reflexivity.
Qed.

Lemma rule_style_eq (e : Elem) :
  rule_style e
  = mkElement (tagName e) (style_attrs e (attributes e)) (childNodes e)
      (className e) (_classList e) (innerHTML e) None (rowSpan e) (colSpan e)
      (src e).
Proof.
  destruct e as [tag attrs cs cn cl ih st rs cspan sr].
  unfold style_attrs, style_text; unfold_rules; cbn.
  destruct st; reflexivity.
Qed.

Lemma rule_tag_eq (e : Elem) :
  rule_tag e
  = mkElement (tagName e) (tag_attrs e (attributes e)) (childNodes e)
      (className e) (_classList e) (innerHTML e) (_style e) (rowSpan e)
      (colSpan e)
      (if negb (isTableCell e) && isImage e && truthy_string (src e)
       then None else src e).
Proof.
  destruct e as [tag attrs cs cn cl ih st rs cspan sr].
  unfold tag_attrs, span_attr; unfold_rules; cbn.
  destruct (tag =? "td"); cbn.
  - destruct rs as [r|]; [destruct (r =? 0)%Z|]; cbn;
      (destruct cspan as [c|]; [destruct (c =? 0)%Z|]); reflexivity.
  - destruct (tag =? "img"); cbn; [|reflexivity].
    destruct sr as [s|]; [destruct (s =? "")|]; reflexivity.
Qed.

(** The element after the six rules, field by field. *)
Lemma element_rules_eq (e : Elem) :
  element_rules e
  = mkElement (tagName e) (final_attrs e)
      (childNodes e ++ appended_text e)
      (if truthy_string (className e) then None else className e)
      None
      (if truthy_string (innerHTML e) then None else innerHTML e)
      None
      (rowSpan e) (colSpan e)
      (if negb (isTableCell e) && isImage e && truthy_string (src e)
       then None else src e).
Proof.
  unfold element_rules, final_attrs.
  rewrite rule_tag_eq, rule_style_eq, rule_innerHTML_eq, rule_classList_eq,
    rule_className_eq.
  reflexivity.
Qed.

Lemma childNodes_element_rules (e : Elem) :
  childNodes (element_rules e) = childNodes e ++ appended_text e.
Proof. rewrite element_rules_eq. reflexivity. Qed.

Lemma nth_error_middle (done todo : list Node) (c : Node) :
  nth_error (done ++ c :: todo) (List.length done) = Some c.
Proof.
  induction done as [|d done IH]; simpl; auto.
Qed.

Lemma store_child_middle (done todo : list Node) (c v : Node) :
  store_child (done ++ c :: todo) (List.length done) v = done ++ v :: todo.
Proof.
  induction done as [|d done IH]; simpl; [reflexivity|].
  rewrite IH. reflexivity.
Qed.

(** The loop, started at index [length done] on a list whose first
    [length done] children are finished, handles the rest in order, provided
    the recursive call returns on each of them and the fuel covers one test
    per child and the last, failing one. *)
Lemma child_loop_spec (handle : Node -> option Node) (g : Node -> Node) :
  forall (todo done : list Node) (fuel : nat),
    (forall c, In c todo -> handle c = Some (g c)) ->
    List.length todo < fuel ->
    child_loop handle fuel (List.length done) (done ++ todo)
    = Some (done ++ map g todo).
Proof.
  induction todo as [|c todo IH]; intros done fuel Hh Hfuel.
  - destruct fuel as [|fuel']; [simpl in Hfuel; lia|].
    simpl. rewrite app_nil_r.
    rewrite Nat.ltb_irrefl. reflexivity.
  - destruct fuel as [|fuel']; [simpl in Hfuel; lia|].
    cbn [child_loop].
    assert (Hlt : (List.length done <? List.length (done ++ c :: todo))%nat = true).
    { apply Nat.ltb_lt. rewrite length_app. simpl. lia. }
    rewrite Hlt, nth_error_middle, (Hh c (or_introl eq_refl)).
    rewrite store_child_middle.
    replace (S (List.length done)) with (List.length (done ++ [g c]))
      by (rewrite length_app; simpl; lia).
    replace (done ++ g c :: todo) with ((done ++ [g c]) ++ todo)
      by (rewrite <- app_assoc; reflexivity).
    rewrite IH.
    + rewrite <- app_assoc. reflexivity.
    + intros c' Hin. apply Hh. right. exact Hin.
    + simpl in Hfuel. lia.
Qed.

Lemma fuel_for_child (c : Node) (cs : list Node) :
  In c cs -> fuel_for c <= list_max (map fuel_for cs).
Proof.
  intros Hin.
  assert (H : Forall (fun k => k <= list_max (map fuel_for cs)) (map fuel_for cs))
    by (apply list_max_le; lia).
  rewrite Forall_forall in H. apply H. apply in_map. exact Hin.
Qed.

Lemma handleXmlNode_fuel_enough :
  forall node fuel,
    fuel_for node <= fuel ->
    handleXmlNode_fuel fuel node = Some (normal_form node).
Proof.
  induction node as [e IH | kind data] using Node_children_ind;
    intros fuel Hfuel.
  - destruct fuel as [|fuel']; [simpl in Hfuel; lia|].
    cbn [fuel_for] in Hfuel.
    cbn [handleXmlNode_fuel apply_rules normal_form].
    change (isElement (Element e)) with true. cbv iota.
    rewrite childNodes_element_rules.
    pose proof (child_loop_spec (handleXmlNode_fuel fuel') normal_form
                  (childNodes e ++ appended_text e) [] fuel') as Hloop.
    cbn [app List.length] in Hloop. rewrite Hloop.
    + rewrite map_app.
      replace (map normal_form (appended_text e)) with (appended_text e)
        by (unfold appended_text; destruct (truthy_string (innerHTML e));
            reflexivity).
      reflexivity.
    + intros c Hin. apply in_app_or in Hin. destruct Hin as [Hin | Hin].
      * rewrite Forall_forall in IH. apply IH; [exact Hin|].
        pose proof (fuel_for_child c (childNodes e) Hin). lia.
      * unfold appended_text in Hin.
        destruct (truthy_string (innerHTML e)); [|contradiction].
        destruct Hin as [<- | []].
        destruct fuel' as [|f]; [lia|]. reflexivity.
    + rewrite length_app.
      assert (List.length (appended_text e) <= 1)
        by (unfold appended_text; destruct (truthy_string (innerHTML e));
            simpl; lia).
      lia.
  - destruct fuel as [|fuel']; [simpl in Hfuel; lia|].
    destruct kind; reflexivity.
Qed.

Lemma handleXmlNode_normal_form (node : Node) :
  handleXmlNode node = normal_form node.
Proof.
  unfold handleXmlNode.
  rewrite (handleXmlNode_fuel_enough node (fuel_for node) (Nat.le_refl _)).
  reflexivity.
Qed.

(** The equations of [handleXmlNode]: the rules on the node, then the call
    on every child of the node as the rules left it. *)
Lemma handleXmlNode_CharacterData (kind : CharKind) (data : string) :
  handleXmlNode (CharacterData kind data) = CharacterData kind data.
Proof. rewrite handleXmlNode_normal_form. reflexivity. Qed.

Lemma handleXmlNode_Element (e : Elem) :
  handleXmlNode (Element e)
  = Element (set_childNodes (element_rules e)
               (map handleXmlNode (childNodes (element_rules e)))).
Proof.
  rewrite handleXmlNode_normal_form. cbn [normal_form].
  rewrite childNodes_element_rules, map_app.
  f_equal. f_equal. f_equal.
  - apply map_ext. intros c. symmetry. apply handleXmlNode_normal_form.
  - unfold appended_text. destruct (truthy_string (innerHTML e)); [|reflexivity].
    simpl. unfold createTextNode. rewrite handleXmlNode_CharacterData.
    reflexivity.
Qed.

(** *** Attribute lists *)

Lemma attr_get_set_same (a : list (string * string)) (name value : string) :
  attr_get (attr_set a name value) name = Some value.
Proof.
  induction a as [|[k v] a IH]; simpl.
  - rewrite String.eqb_refl. reflexivity.
  - destruct (k =? name) eqn:Hk; simpl; rewrite Hk; auto.
Qed.

Lemma attr_get_set_other (a : list (string * string))
  (name value other : string) :
  name <> other ->
  attr_get (attr_set a name value) other = attr_get a other.
Proof.
  intros Hne. induction a as [|[k v] a IH]; simpl.
  - apply String.eqb_neq in Hne. rewrite Hne. reflexivity.
  - destruct (k =? name) eqn:Hk; simpl.
    + apply String.eqb_eq in Hk. subst k.
      apply String.eqb_neq in Hne. rewrite Hne. reflexivity.
    + rewrite IH. reflexivity.
Qed.

Lemma attr_set_same_value (a : list (string * string)) (name value : string) :
  attr_get a name = Some value -> attr_set a name value = a.
Proof.
  induction a as [|[k v] a IH]; simpl; [discriminate|].
  destruct (k =? name) eqn:Hk.
  - intros [= ->]. reflexivity.
  - intros H. rewrite IH by exact H. reflexivity.
Qed.

Lemma attr_set_names (a : list (string * string)) (name value k : string) :
  In k (map fst (attr_set a name value)) -> k = name \/ In k (map fst a).
Proof.
  induction a as [|[k' v'] a IH]; simpl.
  - intros [<- | []]. left. reflexivity.
  - destruct (k' =? name) eqn:Hk; simpl.
    + tauto.
    + intros [<- | H]; [tauto|]. destruct (IH H); tauto.
Qed.

(** How each rule reads through [attr_get]. *)
Lemma className_attrs_other (e : Elem) a name :
  name <> "class" ->
  attr_get (className_attrs e a) name = attr_get a name.
Proof.
  intros H. unfold className_attrs.
  destruct (truthy_string (className e)); [|reflexivity].
  apply attr_get_set_other. congruence.
Qed.

Lemma classList_attrs_other (e : Elem) a name :
  name <> "class" ->
  attr_get (classList_attrs e a) name = attr_get a name.
Proof.
  intros H. unfold classList_attrs.
  destruct (_classList e); [|reflexivity].
  apply attr_get_set_other. congruence.
Qed.

Lemma style_attrs_other (e : Elem) a name :
  name <> "style" ->
  attr_get (style_attrs e a) name = attr_get a name.
Proof.
  intros H. unfold style_attrs.
  destruct (_style e); [|reflexivity].
  apply attr_get_set_other. congruence.
Qed.

Lemma span_attr_other (span : string) (v : option Z) a name :
  name <> span ->
  attr_get (span_attr span v a) name = attr_get a name.
Proof.
  intros H. unfold span_attr.
  destruct v as [r|]; [|reflexivity].
  destruct (r =? 0)%Z; [reflexivity|].
  apply attr_get_set_other. congruence.
Qed.

Lemma tag_attrs_other (e : Elem) a name :
  name <> "rowspan" -> name <> "colspan" -> name <> "src" ->
  attr_get (tag_attrs e a) name = attr_get a name.
Proof.
  intros H1 H2 H3. unfold tag_attrs.
  destruct (isTableCell e).
  - rewrite !span_attr_other by assumption. reflexivity.
  - destruct (isImage e && truthy_string (src e)); [|reflexivity].
    apply attr_get_set_other. congruence.
Qed.

(** The pass on an element returns an element: the node after the rules,
    with every child handled. *)
Lemma handleXmlNode_Element_fields (e : Elem) :
  exists e',
    handleXmlNode (Element e) = Element e'
    /\ tagName e' = tagName e
    /\ attributes e' = final_attrs e
    /\ childNodes e' = map handleXmlNode (childNodes e) ++ appended_text e
    /\ className e' = (if truthy_string (className e) then None else className e)
    /\ _classList e' = None
    /\ innerHTML e' = (if truthy_string (innerHTML e) then None else innerHTML e)
    /\ _style e' = None
    /\ rowSpan e' = rowSpan e
    /\ colSpan e' = colSpan e
    /\ src e' = (if negb (isTableCell e) && isImage e && truthy_string (src e)
                 then None else src e).
Proof.
  eexists. split; [apply handleXmlNode_Element|].
  rewrite element_rules_eq. cbn.
  repeat split.
  rewrite map_app. f_equal.
  unfold appended_text. destruct (truthy_string (innerHTML e)); [|reflexivity].
  cbn [map]. unfold createTextNode. rewrite handleXmlNode_CharacterData.
  reflexivity.
Qed.

Lemma truthy_string_value (v : option string) :
  truthy_string v = true -> Some (string_value v) = v.
Proof. destruct v; [reflexivity | discriminate]. Qed.

Lemma final_attrs_class (e : Elem) :
  attr_get (final_attrs e) "class"
  = match _classList e with
    | Some tokens => Some (Array_join tokens " ")
    | None =>
        if truthy_string (className e) then className e
        else attr_get (attributes e) "class"
    end.
Proof.
  unfold final_attrs.
  rewrite tag_attrs_other, style_attrs_other by discriminate.
  unfold classList_attrs. destruct (_classList e) as [tokens|].
  - apply attr_get_set_same.
  - unfold className_attrs.
    destruct (truthy_string (className e)) eqn:Hcn; [|reflexivity].
    rewrite attr_get_set_same. apply truthy_string_value. exact Hcn.
Qed.

Lemma final_attrs_style (e : Elem) :
  attr_get (final_attrs e) "style"
  = match _style e with
    | Some o => Some (style_text o)
    | None => attr_get (attributes e) "style"
    end.
Proof.
  unfold final_attrs.
  rewrite tag_attrs_other by discriminate.
  unfold style_attrs. destruct (_style e) as [o|].
  - apply attr_get_set_same.
  - rewrite classList_attrs_other, className_attrs_other by discriminate.
    reflexivity.
Qed.

Lemma final_attrs_before_tag (e : Elem) (name : string) :
  name <> "class" -> name <> "style" ->
  attr_get (style_attrs e (classList_attrs e (className_attrs e (attributes e))))
    name
  = attr_get (attributes e) name.
Proof.
  intros H1 H2.
  rewrite style_attrs_other, classList_attrs_other, className_attrs_other
    by assumption.
  reflexivity.
Qed.

Lemma final_attrs_other (e : Elem) (name : string) :
  ~ In name standard_names ->
  attr_get (final_attrs e) name = attr_get (attributes e) name.
Proof.
  intros H. unfold standard_names in H. simpl in H.
  unfold final_attrs.
  rewrite tag_attrs_other by (intros ->; tauto).
  apply final_attrs_before_tag; intros ->; tauto.
Qed.

Lemma isTableCell_iff (e : Elem) : isTableCell e = true <-> tagName e = "td".
Proof. apply String.eqb_eq. Qed.

Lemma isImage_iff (e : Elem) : isImage e = true <-> tagName e = "img".
Proof. apply String.eqb_eq. Qed.

(** C2, as amended.  On every element the pass leaves no class-token list,
    and the class attribute is the token list joined by single spaces
    whenever the list is present, an empty list included (the attribute is
    then the empty string, also over a class attribute that the direct
    class-name value has just written); only when the list is absent does
    the rule do nothing, and the class attribute is then the direct
    class-name value when that is non-empty, and the attribute the element
    had otherwise. *)
Theorem class_token_rule (e : Elem) :
  exists e',
    handleXmlNode (Element e) = Element e'
    /\ _classList e' = None
    /\ getAttribute e' "class"
       = match _classList e with
         | Some tokens => Some (Array_join tokens " ")
         | None =>
             if truthy_string (className e) then className e
             else getAttribute e "class"
         end
    /\ (rule_classList e = e <-> _classList e = None).
Proof.
  destruct (handleXmlNode_Element_fields e)
    as (e' & He' & _ & Hattrs & _ & _ & Hcl & _).
  exists e'. repeat split; try assumption.
  - unfold getAttribute. rewrite Hattrs. apply final_attrs_class.
  - intros Heq. rewrite rule_classList_eq in Heq.
    rewrite <- Heq. reflexivity.
  - intros Hnone. unfold rule_classList. rewrite Hnone. reflexivity.
Qed.

(** C5.  An element whose injected-markup string is non-empty gets exactly
    one more child, a text node holding that string as it is, placed after
    its other children, and its injected-markup string is cleared. *)
Theorem injected_markup_rule (e : Elem) (s : string) :
  innerHTML e = Some s ->
  s <> "" ->
  exists e',
    handleXmlNode (Element e) = Element e'
    /\ childNodes e' = map handleXmlNode (childNodes e) ++ [createTextNode s]
    /\ List.length (childNodes e') = S (List.length (childNodes e))
    /\ nth_error (childNodes e') (List.length (childNodes e))
       = Some (CharacterData TEXT_NODE s)
    /\ innerHTML e' = None.
Proof.
  intros Hs Hne.
  destruct (handleXmlNode_Element_fields e)
    as (e' & He' & _ & _ & Hcs & _ & _ & Hih & _).
  assert (Htruthy : truthy_string (innerHTML e) = true).
  { rewrite Hs. simpl. apply String.eqb_neq in Hne. rewrite Hne. reflexivity. }
  assert (Happ : appended_text e = [createTextNode s]).
  { unfold appended_text. rewrite Htruthy, Hs. reflexivity. }
  rewrite Happ in Hcs. rewrite Htruthy in Hih.
  exists e'. repeat split; try assumption.
  - rewrite Hcs, length_app, length_map. simpl. lia.
  - rewrite Hcs.
    replace (List.length (childNodes e))
      with (List.length (map handleXmlNode (childNodes e)))
      by apply length_map.
    apply nth_error_middle.
Qed.

Lemma injected_markup_rule_witness :
  exists e',
    handleXmlNode (Element div_markup) = Element e'
    /\ childNodes e'
       = map handleXmlNode (childNodes div_markup)
           ++ [createTextNode "Hello & <b>"]
    /\ List.length (childNodes e') = S (List.length (childNodes div_markup))
    /\ nth_error (childNodes e') (List.length (childNodes div_markup))
       = Some (CharacterData TEXT_NODE "Hello & <b>")
    /\ innerHTML e' = None.
Proof.
  apply (injected_markup_rule div_markup "Hello & <b>").
  - reflexivity.
  - discriminate.
Defined.

(** Up to [2^53] in magnitude the string written for a span is its plain
    decimal numeral: read back as a decimal, it is the span. *)
Lemma Number_toString_decimal (z : Z) :
  (Z.abs z <= 2 ^ 53)%Z ->
  Number_toString z = NilZero.string_of_int (Z.to_int z)
  /\ option_map Z.of_int (NilZero.int_of_string (Number_toString z)) = Some z.
Proof.
  intros Hz.
  assert (Hplain : Number_toString z = NilZero.string_of_int (Z.to_int z)).
  { unfold Number_toString, print_magnitude.
    apply Z.leb_le in Hz. rewrite Hz.
    destruct z as [|p|p]; reflexivity. }
  split; [exact Hplain|].
  rewrite Hplain, NilZero.isi.
  - simpl. f_equal. apply DecimalZ.of_to.
  - destruct z as [|p|p]; simpl; try discriminate.
    intros [= H]. exact (DecimalPos.Unsigned.to_uint_nonnil p H).
  - destruct z as [|p|p]; simpl; try discriminate.
    intros [= H]. exact (DecimalPos.Unsigned.to_uint_nonnil p H).
Qed.

(** Beyond, [toString] rounds the digits and, from [10^21] on, prints in
    exponent notation. *)
Example Number_toString_large :
  Number_toString (2 ^ 64) = "18446744073709552000"
  /\ Number_toString 999999999999999900000 = "999999999999999900000"
  /\ Number_toString (10 ^ 21) = "1e+21"
  /\ Number_toString (- 2 ^ 70) = "-1.1805916207174113e+21"
  /\ Number_toString (2 ^ 100) = "1.2676506002282294e+30".
Proof. repeat split; vm_compute; reflexivity. Qed.

Lemma final_attrs_rowspan (e : Elem) :
  attr_get (final_attrs e) "rowspan"
  = if isTableCell e && truthy_number (rowSpan e)
    then option_map Number_toString (rowSpan e)
    else attr_get (attributes e) "rowspan".
Proof.
  unfold final_attrs, tag_attrs.
  destruct (isTableCell e); cbn [andb].
  - rewrite span_attr_other by discriminate.
    unfold span_attr, truthy_number.
    destruct (rowSpan e) as [r|].
    + destruct (r =? 0)%Z; cbn [negb option_map].
      * apply final_attrs_before_tag; discriminate.
      * apply attr_get_set_same.
    + apply final_attrs_before_tag; discriminate.
  - destruct (isImage e && truthy_string (src e)).
    + rewrite attr_get_set_other by discriminate.
      apply final_attrs_before_tag; discriminate.
    + apply final_attrs_before_tag; discriminate.
Qed.

Lemma final_attrs_colspan (e : Elem) :
  attr_get (final_attrs e) "colspan"
  = if isTableCell e && truthy_number (colSpan e)
    then option_map Number_toString (colSpan e)
    else attr_get (attributes e) "colspan".
Proof.
  unfold final_attrs, tag_attrs.
  destruct (isTableCell e); cbn [andb].
  - unfold span_attr at 1. unfold truthy_number.
    destruct (colSpan e) as [c|].
    + destruct (c =? 0)%Z; cbn [negb option_map].
      * rewrite span_attr_other by discriminate.
        apply final_attrs_before_tag; discriminate.
      * apply attr_get_set_same.
    + rewrite span_attr_other by discriminate.
      apply final_attrs_before_tag; discriminate.
  - destruct (isImage e && truthy_string (src e)).
    + rewrite attr_get_set_other by discriminate.
      apply final_attrs_before_tag; discriminate.
    + apply final_attrs_before_tag; discriminate.
Qed.

Lemma final_attrs_src (e : Elem) :
  attr_get (final_attrs e) "src"
  = if negb (isTableCell e) && isImage e && truthy_string (src e)
    then src e
    else attr_get (attributes e) "src".
Proof.
  unfold final_attrs, tag_attrs.
  destruct (isTableCell e); cbn [andb negb].
  - rewrite !span_attr_other by discriminate.
    apply final_attrs_before_tag; discriminate.
  - destruct (isImage e); cbn [andb].
    + destruct (truthy_string (src e)) eqn:Hsrc.
      * rewrite attr_get_set_same. apply truthy_string_value. exact Hsrc.
      * apply final_attrs_before_tag; discriminate.
    + apply final_attrs_before_tag; discriminate.
Qed.

(** C6.  On a table cell, a row-span scalar that is set and not zero is
    written as the [rowspan] attribute, as [toString] prints it, which for a
    span up to [2^53] in magnitude is its plain decimal numeral, and,
    independently, a column-span scalar as the [colspan] attribute; a span
    that is unset or zero leaves its attribute as it was; both scalars are
    still there after the pass.  Row-span 2 and column-span 3 give
    [rowspan="2"] and [colspan="3"]. *)
Theorem table_cell_spans (e : Elem) :
  isTableCell e = true ->
  exists e',
    handleXmlNode (Element e) = Element e'
    /\ (forall r, rowSpan e = Some r -> r <> 0%Z ->
        getAttribute e' "rowspan" = Some (Number_toString r)
        /\ ((Z.abs r <= 2 ^ 53)%Z ->
            Number_toString r = NilZero.string_of_int (Z.to_int r)
            /\ option_map Z.of_int
                 (NilZero.int_of_string (Number_toString r))
               = Some r))
    /\ (forall c, colSpan e = Some c -> c <> 0%Z ->
        getAttribute e' "colspan" = Some (Number_toString c)
        /\ ((Z.abs c <= 2 ^ 53)%Z ->
            Number_toString c = NilZero.string_of_int (Z.to_int c)
            /\ option_map Z.of_int
                 (NilZero.int_of_string (Number_toString c))
               = Some c))
    /\ (truthy_number (rowSpan e) = false ->
        getAttribute e' "rowspan" = getAttribute e "rowspan")
    /\ (truthy_number (colSpan e) = false ->
        getAttribute e' "colspan" = getAttribute e "colspan")
    /\ rowSpan e' = rowSpan e
    /\ colSpan e' = colSpan e
    /\ (rowSpan e = Some 2%Z -> colSpan e = Some 3%Z ->
        getAttribute e' "rowspan" = Some "2"
        /\ getAttribute e' "colspan" = Some "3").
Proof.
  intros Htd.
  destruct (handleXmlNode_Element_fields e)
    as (e' & He' & _ & Hattrs & _ & _ & _ & _ & _ & Hrs & Hcs & _).
  exists e'. unfold getAttribute. rewrite Hattrs.
  rewrite final_attrs_rowspan, final_attrs_colspan, Htd. cbn [andb].
  split; [exact He'|].
  split.
  { intros r Hr Hne. rewrite Hr. simpl.
    apply Z.eqb_neq in Hne. rewrite Hne. simpl.
    split; [reflexivity | apply Number_toString_decimal]. }
  split.
  { intros c Hc Hne. rewrite Hc. simpl.
    apply Z.eqb_neq in Hne. rewrite Hne. simpl.
    split; [reflexivity | apply Number_toString_decimal]. }
  split; [intros ->; reflexivity|].
  split; [intros ->; reflexivity|].
  split; [exact Hrs|].
  split; [exact Hcs|].
  intros -> ->. split; reflexivity.
Qed.

Lemma table_cell_spans_witness :
  exists e',
    handleXmlNode (Element cell_2_3) = Element e'
    /\ getAttribute e' "rowspan" = Some "2"
    /\ getAttribute e' "colspan" = Some "3"
    /\ rowSpan e' = Some 2%Z
    /\ colSpan e' = Some 3%Z
    /\ option_map Z.of_int (NilZero.int_of_string (Number_toString 2))
       = Some 2%Z.
Proof.
  destruct (table_cell_spans cell_2_3 eq_refl)
    as (e' & He' & Hrow & _ & _ & _ & Hrs & Hcs & H23).
  destruct (H23 eq_refl eq_refl) as [Hr Hc].
  assert (Hne : 2%Z <> 0%Z) by discriminate.
  destruct (Hrow 2%Z eq_refl Hne) as [_ Hplain].
  assert (Hsafe : (Z.abs 2 <= 2 ^ 53)%Z) by (vm_compute; discriminate).
  destruct (Hplain Hsafe) as [_ Hback].
  exists e'. repeat split; assumption.
Defined.

(** C9.  The tag tests are exact comparisons with ["td"] and ["img"].  On
    an element whose tag name is neither of the two, also when it differs
    from one of them only in case, the pass leaves the [rowspan], [colspan]
    and [src] attributes as they were and does not clear the image source
    scalar, whatever the span and source scalars hold. *)
Theorem tag_match_is_exact (e : Elem) :
  (isTableCell e = true <-> tagName e = "td")
  /\ (isImage e = true <-> tagName e = "img")
  /\ (tagName e = "TD" \/ tagName e = "Td" \/ tagName e = "tD"
      \/ tagName e = "IMG" \/ tagName e = "Img" ->
      isTableCell e = false /\ isImage e = false)
  /\ (tagName e <> "td" -> tagName e <> "img" ->
      exists e',
        handleXmlNode (Element e) = Element e'
        /\ getAttribute e' "rowspan" = getAttribute e "rowspan"
        /\ getAttribute e' "colspan" = getAttribute e "colspan"
        /\ getAttribute e' "src" = getAttribute e "src"
        /\ src e' = src e
        /\ rowSpan e' = rowSpan e
        /\ colSpan e' = colSpan e).
Proof.
  split; [apply isTableCell_iff|].
  split; [apply isImage_iff|].
  split.
  { unfold isTableCell, isImage.
    intros [-> | [-> | [-> | [-> | ->]]]]; split; reflexivity. }
  intros Htd Himg.
  assert (Hc : isTableCell e = false).
  { destruct (isTableCell e) eqn:H; [|reflexivity].
    apply isTableCell_iff in H. contradiction. }
  assert (Hi : isImage e = false).
  { destruct (isImage e) eqn:H; [|reflexivity].
    apply isImage_iff in H. contradiction. }
  destruct (handleXmlNode_Element_fields e)
    as (e' & He' & _ & Hattrs & _ & _ & _ & _ & _ & Hrs & Hcs & Hsrc).
  exists e'. unfold getAttribute. rewrite Hattrs.
  rewrite final_attrs_rowspan, final_attrs_colspan, final_attrs_src.
  rewrite Hc, Hi in *. cbn [andb negb] in *.
  repeat split; assumption.
Qed.

Lemma tag_match_is_exact_witness :
  isTableCell upper_cell = false
  /\ isImage upper_cell = false
  /\ exists e',
       handleXmlNode (Element upper_cell) = Element e'
       /\ getAttribute e' "rowspan" = None
       /\ getAttribute e' "colspan" = None
       /\ getAttribute e' "src" = None
       /\ src e' = Some "a.png".
Proof.
  destruct (tag_match_is_exact upper_cell) as (_ & _ & Hcase & Hother).
  destruct (Hcase (or_introl eq_refl)) as [Hc Hi].
  split; [exact Hc|]. split; [exact Hi|].
  destruct Hother as (e' & He' & Hr & Hc' & Hs & Hsrc & _).
  - discriminate.
  - discriminate.
  - exists e'. repeat split; assumption.
Defined.

(** *** A second pass *)

Lemma span_attr_settled (name : string) (v : option Z) a :
  (truthy_number v = true -> attr_get a name = option_map Number_toString v) ->
  span_attr name v a = a.
Proof.
  unfold span_attr, truthy_number. destruct v as [r|]; [|reflexivity].
  destruct (r =? 0)%Z; [reflexivity|]. cbn [negb option_map].
  intros H. apply attr_set_same_value. apply H. reflexivity.
Qed.

Lemma settled_rules (x : Elem) :
  settled x ->
  rule_className x = x /\ rule_classList x = x /\ rule_innerHTML x = x
  /\ rule_style x = x /\ rule_tag x = x.
Proof.
  intros (Hcn & Hcl & Hih & Hst & Htd & Himg).
  repeat split.
  - unfold rule_className. rewrite Hcn. reflexivity.
  - unfold rule_classList. rewrite Hcl. reflexivity.
  - unfold rule_innerHTML. rewrite Hih. reflexivity.
  - unfold rule_style. rewrite Hst. reflexivity.
  - rewrite rule_tag_eq. unfold tag_attrs.
    destruct (isTableCell x) eqn:Hc; cbn [negb andb].
    + destruct (Htd eq_refl) as [Hr Hcs].
      rewrite (span_attr_settled "rowspan") by exact Hr.
      rewrite (span_attr_settled "colspan") by exact Hcs.
      destruct x; reflexivity.
    + destruct (isImage x) eqn:Hi; cbn [andb].
      * rewrite (Himg eq_refl eq_refl). destruct x; reflexivity.
      * destruct x; reflexivity.
Qed.

Lemma settled_element_rules (x : Elem) :
  settled x -> element_rules x = x.
Proof.
  intros H. destruct (settled_rules x H) as (H1 & H2 & H3 & H4 & H5).
  unfold element_rules. rewrite H1, H2, H3, H4, H5. reflexivity.
Qed.

Lemma truthy_string_cleared (b : bool) (v : option string) :
  (b = false -> truthy_string v = false) ->
  truthy_string (if b then None else v) = false.
Proof. destruct b; auto. Qed.

(** After the rules, whatever the child list is set to, the element is
    settled. *)
Lemma element_rules_settled (e : Elem) (cs : list Node) :
  settled (set_childNodes (element_rules e) cs).
Proof.
  rewrite element_rules_eq. unfold settled, isTableCell, isImage.
  cbn [set_childNodes tagName attributes childNodes className _classList
         innerHTML _style rowSpan colSpan src].
  fold (isTableCell e). fold (isImage e).
  split; [apply truthy_string_cleared; auto|].
  split; [reflexivity|].
  split; [apply truthy_string_cleared; auto|].
  split; [reflexivity|].
  split.
  - intros Htd. rewrite final_attrs_rowspan, final_attrs_colspan, Htd.
    cbn [andb]. split; intros ->; reflexivity.
  - intros Htd Himg. rewrite Htd, Himg. cbn [negb andb].
    destruct (truthy_string (src e)) eqn:Hs; [reflexivity | exact Hs].
Qed.

Lemma normal_form_idempotent (node : Node) :
  normal_form (normal_form node) = normal_form node.
Proof.
  induction node as [e IH | kind data] using Node_children_ind;
    [|reflexivity].
  cbn [normal_form].
  set (cs := map normal_form (childNodes e) ++ appended_text e).
  pose proof (element_rules_settled e cs) as Hs.
  rewrite (settled_element_rules _ Hs).
  assert (Happ : appended_text (set_childNodes (element_rules e) cs) = []).
  { destruct Hs as (_ & _ & Hih & _). unfold appended_text.
    rewrite Hih. reflexivity. }
  rewrite Happ, app_nil_r.
  change (childNodes (set_childNodes (element_rules e) cs)) with cs.
  assert (Hcs : map normal_form cs = cs).
  { unfold cs. rewrite map_app, map_map. f_equal.
    - apply map_ext_in. intros c Hin.
      rewrite Forall_forall in IH. apply IH. exact Hin.
    - unfold appended_text. destruct (truthy_string (innerHTML e));
        reflexivity. }
  rewrite Hcs. reflexivity.
Qed.

(** C4.  A second pass changes nothing: the tree after two passes is the
    tree after one, and on every element the first pass returns each of the
    rules is a no-op. *)
Theorem handleXmlNode_idempotent (node : Node) :
  handleXmlNode (handleXmlNode node) = handleXmlNode node
  /\ match handleXmlNode node with
     | Element e' =>
         rule_className e' = e' /\ rule_classList e' = e'
         /\ rule_innerHTML e' = e' /\ rule_style e' = e' /\ rule_tag e' = e'
     | CharacterData _ _ => True
     end.
Proof.
  split.
  - rewrite !handleXmlNode_normal_form. apply normal_form_idempotent.
  - rewrite handleXmlNode_normal_form. destruct node as [e | kind data].
    + cbn [normal_form]. apply settled_rules. apply element_rules_settled.
    + exact I.
Qed.

(** C10.  The pass returns on every tree: with at least [fuel_for node]
    units of fuel the loop-by-loop run of [handleXmlNode] ends, and what it
    returns is [handleXmlNode node].  The rules add at most one child to the
    list the loop walks; that child is a text node, not an element and with
    no child list, so the call on it returns it at once. *)
Theorem handleXmlNode_terminates (node : Node) (extra : nat) :
  handleXmlNode_fuel (fuel_for node + extra) node = Some (handleXmlNode node)
  /\ match node with
     | Element e =>
         childNodes (element_rules e) = childNodes e ++ appended_text e
         /\ List.length (appended_text e) <= 1
         /\ Forall (fun t =>
                      nodeType t = 3%Z /\ isElement t = false
                      /\ childNodesOf t = None
                      /\ handleXmlNode_fuel (S extra) t = Some t)
              (appended_text e)
     | CharacterData _ _ =>
         handleXmlNode_fuel (S extra) node = Some node
     end.
Proof.
  split.
  - rewrite handleXmlNode_normal_form.
    apply handleXmlNode_fuel_enough. lia.
  - destruct node as [e | kind data].
    + split; [apply childNodes_element_rules|].
      unfold appended_text. destruct (truthy_string (innerHTML e)).
      * split; [simpl; lia|].
        constructor; [|constructor]. repeat split.
      * split; [simpl; lia | constructor].
    + destruct kind; reflexivity.
Qed.

(** *** The whole tree *)

Lemma node_in_normal_form (root : Node) (e' : Elem) :
  node_in (Element e') (normal_form root) ->
  exists e, node_in (Element e) root /\ normal_form (Element e) = Element e'.
Proof.
  induction root as [r IH | kind data] using Node_children_ind.
  - cbn [normal_form]. intros Hin.
    inversion Hin as [Hself | x c Hc Hm Hx]; subst.
    + exists r. split; [constructor | cbn [normal_form]; congruence].
    + cbn [set_childNodes childNodes] in Hc.
      apply in_app_or in Hc. destruct Hc as [Hc | Hc].
      * apply in_map_iff in Hc. destruct Hc as (c0 & <- & Hc0).
        rewrite Forall_forall in IH.
        destruct (IH c0 Hc0 Hm) as (e & He & Hnf).
        exists e. split; [|exact Hnf].
        apply node_in_child with (c := c0); assumption.
      * unfold appended_text in Hc.
        destruct (truthy_string (innerHTML r)); [|contradiction].
        destruct Hc as [<- | []]. inversion Hm.
  - cbn [normal_form]. intros Hin. inversion Hin.
Qed.

Lemma className_attrs_names (e : Elem) a name :
  In name (map fst (className_attrs e a)) ->
  In name standard_names \/ In name (map fst a).
Proof.
  unfold className_attrs. destruct (truthy_string (className e)); [|tauto].
  intros H. apply attr_set_names in H. destruct H as [-> | H]; [|tauto].
  left. simpl. tauto.
Qed.

Lemma classList_attrs_names (e : Elem) a name :
  In name (map fst (classList_attrs e a)) ->
  In name standard_names \/ In name (map fst a).
Proof.
  unfold classList_attrs. destruct (_classList e); [|tauto].
  intros H. apply attr_set_names in H. destruct H as [-> | H]; [|tauto].
  left. simpl. tauto.
Qed.

Lemma style_attrs_names (e : Elem) a name :
  In name (map fst (style_attrs e a)) ->
  In name standard_names \/ In name (map fst a).
Proof.
  unfold style_attrs. destruct (_style e); [|tauto].
  intros H. apply attr_set_names in H. destruct H as [-> | H]; [|tauto].
  left. simpl. tauto.
Qed.

Lemma span_attr_names (span : string) (v : option Z) a name :
  In span standard_names ->
  In name (map fst (span_attr span v a)) ->
  In name standard_names \/ In name (map fst a).
Proof.
  intros Hstd. unfold span_attr. destruct v as [r|]; [|tauto].
  destruct (r =? 0)%Z; [tauto|].
  intros H. apply attr_set_names in H. destruct H as [-> | H]; tauto.
Qed.

Lemma tag_attrs_names (e : Elem) a name :
  In name (map fst (tag_attrs e a)) ->
  In name standard_names \/ In name (map fst a).
Proof.
  unfold tag_attrs. destruct (isTableCell e).
  - intros H. apply span_attr_names in H; [|simpl; tauto].
    destruct H as [H | H]; [tauto|].
    apply span_attr_names in H; [exact H | simpl; tauto].
  - destruct (isImage e && truthy_string (src e)); [|tauto].
    intros H. apply attr_set_names in H. destruct H as [-> | H]; [|tauto].
    left. simpl. tauto.
Qed.

Lemma final_attrs_names (e : Elem) (name : string) :
  In name (map fst (final_attrs e)) ->
  In name standard_names \/ In name (map fst (attributes e)).
Proof.
  unfold final_attrs. intros H.
  apply tag_attrs_names in H. destruct H as [H | H]; [tauto|].
  apply style_attrs_names in H. destruct H as [H | H]; [tauto|].
  apply classList_attrs_names in H. destruct H as [H | H]; [tauto|].
  apply className_attrs_names in H. exact H.
Qed.

(** C1, as amended.  After one pass every element of the tree is the
    result of the pass on an element [e] of the tree as it was, and on it:
    the direct class-name value and the injected-markup string are null or
    empty, the class-token list and the style mapping are null, and the
    image source scalar is null or empty if the element is an image; the
    row-span and column-span scalars are the ones [e] had, not cleared;
    every attribute with a name other than [class], [style], [rowspan],
    [colspan], [src] is as it was on [e], and no attribute with a new name
    outside these five appears; the children are the children of [e] after
    the pass, followed by at most one text node. *)
Theorem normalized_tree (root : Node) (e' : Elem) :
  node_in (Element e') (handleXmlNode root) ->
  exists e,
    node_in (Element e) root
    /\ handleXmlNode (Element e) = Element e'
    /\ truthy_string (className e') = false
    /\ _classList e' = None
    /\ truthy_string (innerHTML e') = false
    /\ _style e' = None
    /\ (isImage e' = true -> truthy_string (src e') = false)
    /\ rowSpan e' = rowSpan e
    /\ colSpan e' = colSpan e
    /\ (forall name, ~ In name standard_names ->
        getAttribute e' name = getAttribute e name)
    /\ (forall name, In name (map fst (attributes e')) ->
        In name standard_names \/ In name (map fst (attributes e)))
    /\ childNodes e' = map handleXmlNode (childNodes e) ++ appended_text e
    /\ List.length (appended_text e) <= 1
    /\ Forall (fun t => nodeType t = 3%Z) (appended_text e).
Proof.
  rewrite handleXmlNode_normal_form. intros Hin.
  destruct (node_in_normal_form root e' Hin) as (e & He & Hnf).
  exists e. split; [exact He|].
  rewrite <- handleXmlNode_normal_form in Hnf.
  split; [exact Hnf|].
  destruct (handleXmlNode_Element_fields e)
    as (x & Hx & Htag & Hattrs & Hcs & Hcn & Hcl & Hih & Hst & Hrs & Hcsp
        & Hsrc).
  rewrite Hnf in Hx. injection Hx as <-.
  split; [rewrite Hcn; apply truthy_string_cleared; auto|].
  split; [exact Hcl|].
  split; [rewrite Hih; apply truthy_string_cleared; auto|].
  split; [exact Hst|].
  split.
  { intros Himg. rewrite Hsrc.
    assert (Hi : isImage e = true).
    { unfold isImage in *. rewrite <- Htag. exact Himg. }
    assert (Hc : isTableCell e = false).
    { unfold isTableCell. apply isImage_iff in Hi. rewrite Hi. reflexivity. }
    rewrite Hi, Hc. cbn [negb andb].
    destruct (truthy_string (src e)) eqn:Hs; [reflexivity | exact Hs]. }
  split; [exact Hrs|].
  split; [exact Hcsp|].
  split.
  { intros name Hname. unfold getAttribute. rewrite Hattrs.
    apply final_attrs_other. exact Hname. }
  split.
  { intros name Hname. rewrite Hattrs in Hname.
    apply final_attrs_names. exact Hname. }
  split; [exact Hcs|].
  unfold appended_text. destruct (truthy_string (innerHTML e)).
  - split; [simpl; lia|]. constructor; [reflexivity | constructor].
  - split; [simpl; lia | constructor].
Qed.

Lemma normalized_tree_witness :
  exists e,
    node_in (Element e) (Element div_markup)
    /\ handleXmlNode (Element e) = Element cell_2_3_normalized
    /\ rowSpan cell_2_3_normalized = rowSpan e
    /\ colSpan cell_2_3_normalized = colSpan e
    /\ _classList cell_2_3_normalized = None
    /\ _style cell_2_3_normalized = None.
Proof.
  assert (Hin : node_in (Element cell_2_3_normalized)
                  (handleXmlNode (Element div_markup))).
  { vm_compute.
    apply node_in_child with (c := Element cell_2_3_normalized).
    - left. reflexivity.
    - apply node_in_self. }
  destruct (normalized_tree (Element div_markup) cell_2_3_normalized Hin)
    as (e & He & Hpass & _ & Hcl & _ & Hst & _ & Hrs & Hcs & _).
  exists e. repeat split; assumption.
Defined.

(** C1 as it is stated fails: the pass leaves the row-span and column-span
    scalars of a table cell in place; on an element whose tag is not exactly
    ["img"] it leaves the image source scalar; and it keeps an attribute
    such as [id]. *)
Lemma shadow_state_survives :
  ~ (forall e', node_in (Element e') (handleXmlNode (Element cell_2_3)) ->
       rowSpan e' = None /\ colSpan e' = None)
  /\ ~ (forall e', node_in (Element e') (handleXmlNode (Element upper_cell)) ->
          src e' = None)
  /\ ~ (forall e', node_in (Element e') (handleXmlNode (Element upper_cell)) ->
          forall name, In name (map fst (attributes e')) ->
                       In name standard_names).
Proof.
  assert (Hcell : node_in (Element cell_2_3_normalized)
                    (handleXmlNode (Element cell_2_3)))
    by (vm_compute; apply node_in_self).
  assert (Hupper : node_in (Element upper_cell)
                     (handleXmlNode (Element upper_cell)))
    by (vm_compute; apply node_in_self).
  repeat split; intros H.
  - destruct (H _ Hcell) as [Hr _]. discriminate Hr.
  - specialize (H _ Hupper). discriminate H.
  - specialize (H _ Hupper "id" (or_introl eq_refl)).
    simpl in H. intuition discriminate.
Qed.

(** *** The style text *)

Lemma kebabCase_app (s1 s2 : string) :
  kebabCase (s1 ++ s2) = (kebabCase s1 ++ kebabCase s2)%string.
Proof.
  induction s1 as [|c s1 IH]; simpl; [reflexivity|].
  destruct (is_upper c); simpl; rewrite IH; reflexivity.
Qed.

Lemma toLowerCase_code (c : ascii) :
  is_upper c = true -> N_of_ascii (toLowerCase c) = (N_of_ascii c + 32)%N.
Proof.
  unfold is_upper, toLowerCase. intros H.
  apply andb_true_iff in H. destruct H as [_ H]. apply N.leb_le in H.
  apply N_ascii_embedding. lia.
Qed.

Lemma index_keys_none (o : JSObject) :
  (forall k, In k (map fst o) -> array_index k = None) ->
  index_keys o = [].
Proof.
  induction o as [|[k v] o IH]; intros H; [reflexivity|].
  unfold index_keys in *. cbn [fold_right fst].
  rewrite (H k (or_introl eq_refl)).
  apply IH. intros k' Hk'. apply H. right. exact Hk'.
Qed.

Lemma named_keys_all (o : JSObject) :
  (forall k, In k (map fst o) -> array_index k = None) ->
  named_keys o = map fst o.
Proof.
  unfold named_keys. induction o as [|[k v] o IH]; intros H; [reflexivity|].
  cbn [map fst filter]. unfold is_index at 1.
  rewrite (H k (or_introl eq_refl)). cbn [negb].
  rewrite IH; [reflexivity|].
  intros k' Hk'. apply H. right. exact Hk'.
Qed.

(** Without array indices among the keys, [Object.keys] is creation
    order. *)
Lemma Object_keys_creation_order (o : JSObject) :
  (forall k, In k (map fst o) -> array_index k = None) ->
  Object_keys o = map fst o.
Proof.
  intros H. unfold Object_keys.
  rewrite index_keys_none, named_keys_all by exact H. reflexivity.
Qed.

Lemma entries_of_keys (f : string -> option string -> string)
  (o rest : JSObject) :
  NoDup (map fst (rest ++ o)) ->
  map (fun key => f key (obj_get (rest ++ o) key)) (map fst o)
  = map (fun kv => f (fst kv) (Some (snd kv))) o.
Proof.
  revert rest. induction o as [|[k v] o IH]; intros rest Hnd; [reflexivity|].
  cbn [map fst snd]. f_equal.
  - f_equal. rewrite map_app in Hnd. cbn [map fst] in Hnd.
    apply NoDup_remove_2 in Hnd.
    assert (Hfresh : ~ In k (map fst rest)).
    { intros Hin. apply Hnd. apply in_or_app. left. exact Hin. }
    clear Hnd. induction rest as [|[k' v'] rest IHr]; simpl.
    + rewrite String.eqb_refl. reflexivity.
    + destruct (k' =? k) eqn:Hk.
      * apply String.eqb_eq in Hk. subst. simpl in Hfresh. tauto.
      * apply IHr. simpl in Hfresh. tauto.
  - specialize (IH (rest ++ [(k, v)])).
    rewrite <- app_assoc in IH. apply IH. exact Hnd.
Qed.

Lemma style_text_entries (o : JSObject) :
  NoDup (map fst o) ->
  (forall k, In k (map fst o) -> array_index k = None) ->
  style_text o
  = Array_join
      (map (fun kv => (kebabCase (fst kv) ++ ": " ++ snd kv)%string) o) "; ".
Proof.
  intros Hnd Hidx. unfold style_text.
  rewrite Object_keys_creation_order by exact Hidx.
  f_equal.
  exact (entries_of_keys
           (fun key v => (kebabCase key ++ ": " ++ string_value v)%string)
           o [] Hnd).
Qed.

(** C3, as amended.  On every element the pass leaves no style mapping.
    When the mapping is present, an empty one included (the attribute is
    then the empty string), the [style] attribute is set to the entries
    rendered as [name: value] and joined by ["; "], in the order of
    [Object.keys], which is creation order when no property name is an array
    index; each name is converted letter by letter, a hyphen and the
    lower-case letter taking the place of every upper-case ASCII letter, a
    leading one included.  When the mapping is absent the [style] attribute
    is as it was. *)
Theorem style_rule (e : Elem) :
  exists e',
    handleXmlNode (Element e) = Element e'
    /\ _style e' = None
    /\ getAttribute e' "style"
       = match _style e with
         | Some o =>
             Some (Array_join
                     (map (fun key =>
                             (kebabCase key ++ ": "
                                ++ string_value (obj_get o key))%string)
                        (Object_keys o))
                     "; ")
         | None => getAttribute e "style"
         end
    /\ (forall o,
          _style e = Some o ->
          NoDup (map fst o) ->
          (forall k, In k (map fst o) -> array_index k = None) ->
          getAttribute e' "style"
          = Some (Array_join
                    (map (fun kv =>
                            (kebabCase (fst kv) ++ ": " ++ snd kv)%string) o)
                    "; "))
    /\ (forall s1 s2,
          kebabCase (s1 ++ s2) = (kebabCase s1 ++ kebabCase s2)%string)
    /\ (forall c,
          kebabCase (String c "")
          = if is_upper c then String "-" (String (toLowerCase c) "")
            else String c "")
    /\ (forall c, is_upper c = true ->
                  N_of_ascii (toLowerCase c) = (N_of_ascii c + 32)%N).
Proof.
  destruct (handleXmlNode_Element_fields e)
    as (e' & He' & _ & Hattrs & _ & _ & _ & _ & Hst & _).
  assert (Hstyle : getAttribute e' "style"
                   = match _style e with
                     | Some o => Some (style_text o)
                     | None => getAttribute e "style"
                     end).
  { unfold getAttribute. rewrite Hattrs. apply final_attrs_style. }
  exists e'.
  split; [exact He'|]. split; [exact Hst|]. split; [exact Hstyle|].
  split.
  { intros o Ho Hnd Hidx. rewrite Hstyle, Ho.
    rewrite style_text_entries by assumption. reflexivity. }
  split; [apply kebabCase_app|].
  split; [intros c; simpl; destruct (is_upper c); reflexivity|].
  apply toLowerCase_code.
Qed.

Lemma style_rule_witness :
  exists e',
    handleXmlNode (Element div_styled) = Element e'
    /\ _style e' = None
    /\ getAttribute e' "style" = Some "font-size: 12pt; color: red".
Proof.
  destruct (style_rule div_styled) as (e' & He' & Hst & _ & Hentries & _).
  exists e'. split; [exact He'|]. split; [exact Hst|].
  apply (Hentries [("fontSize", "12pt"); ("color", "red")]).
  - reflexivity.
  - repeat constructor; simpl; intuition discriminate.
  - intros k [<- | [<- | []]]; reflexivity.
Defined.

(** C3 as it is stated fails twice: a leading upper-case letter gets its
    hyphen like any other, and an empty style mapping, being an object,
    passes the test and has the [style] attribute written, as the empty
    string. *)
Lemma style_rule_counterexample :
  kebabCase "WebkitTransform" = "-webkit-transform"
  /\ kebabCase "WebkitTransform" <> "webkit-transform"
  /\ exists e',
       handleXmlNode (Element div_empty_style) = Element e'
       /\ _style div_empty_style = Some []
       /\ getAttribute div_empty_style "style" = None
       /\ getAttribute e' "style" = Some ""
       /\ getAttribute e' "style" <> getAttribute div_empty_style "style".
Proof.
  split; [reflexivity|]. split; [discriminate|].
  eexists. split; [vm_compute; reflexivity|].
  repeat split; discriminate.
Qed.

(** C2 as it is stated fails: an empty token list, being an array, passes
    the test; the rule then writes the empty string over the class
    attribute that the direct class-name value has just set, and clears the
    list. *)
Lemma class_token_rule_counterexample :
  exists e',
    handleXmlNode (Element div_named_empty_list) = Element e'
    /\ _classList div_named_empty_list = Some []
    /\ className div_named_empty_list = Some "a"
    /\ getAttribute e' "class" = Some ""
    /\ getAttribute e' "class" <> className div_named_empty_list
    /\ rule_classList div_named_empty_list <> div_named_empty_list.
Proof.
  eexists. split; [vm_compute; reflexivity|].
  repeat split; discriminate.
Qed.

Lemma class_token_rule_witness :
  exists e',
    handleXmlNode (Element div_tokens) = Element e'
    /\ _classList e' = None
    /\ getAttribute e' "class" = Some "x y".
Proof.
  destruct (class_token_rule div_tokens) as (e' & He' & Hcl & Hattr & _).
  exists e'. repeat split; assumption.
Defined.

(** *** [getFirstElementChild] *)

Lemma first_element_find (children : list Node) :
  first_element children = find isElement children.
Proof.
  induction children as [|c rest IH]; simpl; [reflexivity|].
  unfold isElement at 1. destruct (nodeType c =? 1)%Z; [reflexivity | exact IH].
Qed.

Lemma first_element_some (children : list Node) (c : Node) :
  first_element children = Some c <->
  exists before after,
    children = before ++ c :: after
    /\ isElement c = true
    /\ Forall (fun x => isElement x = false) before.
Proof.
  split.
  - induction children as [|x rest IH]; simpl; [discriminate|].
    destruct (nodeType x =? 1)%Z eqn:Hx.
    + intros [= ->]. exists [], rest. repeat split; [exact Hx | constructor].
    + intros H. destruct (IH H) as (before & after & -> & Hc & Hbefore).
      exists (x :: before), after. repeat split; [exact Hc|].
      constructor; [exact Hx | exact Hbefore].
  - intros (before & after & -> & Hc & Hbefore).
    induction Hbefore as [|x before Hx _ IH]; simpl.
    + unfold isElement in Hc. rewrite Hc. reflexivity.
    + unfold isElement in Hx. rewrite Hx. exact IH.
Qed.

Lemma first_element_none (children : list Node) :
  first_element children = None <->
  Forall (fun x => isElement x = false) children.
Proof.
  split.
  - induction children as [|x rest IH]; simpl; [constructor|].
    destruct (nodeType x =? 1)%Z eqn:Hx; [discriminate|].
    intros H. constructor; [exact Hx | apply IH; exact H].
  - induction 1 as [|x rest Hx _ IH]; simpl; [reflexivity|].
    unfold isElement in Hx. rewrite Hx. exact IH.
Qed.

(** X18.  On every node that has a child list the accessor returns the
    first child, in child order, that is an element, passing over text and
    comment nodes, and null when no child is an element; on a null node it
    returns null. *)
Theorem first_element_child (node : Node) (children : list Node) :
  childNodesOf node = Some children ->
  getFirstElementChild (Some node) = Return (first_element children)
  /\ first_element children = find isElement children
  /\ (forall c,
        first_element children = Some c <->
        exists before after,
          children = before ++ c :: after
          /\ isElement c = true
          /\ Forall (fun x => isElement x = false) before)
  /\ (first_element children = None <->
      Forall (fun x => isElement x = false) children)
  /\ getFirstElementChild None = Return None.
Proof.
  intros Hcs. unfold getFirstElementChild. rewrite Hcs.
  split; [reflexivity|].
  split; [apply first_element_find|].
  split; [intros c; apply first_element_some|].
  split; [apply first_element_none | reflexivity].
Qed.

Lemma first_element_child_witness :
  getFirstElementChild (Some (Element div_mixed))
  = Return (Some (Element cell_2_3)).
Proof.
  destruct (first_element_child (Element div_mixed) (childNodes div_mixed)
              eq_refl) as [H _].
  exact H.
Defined.

(** C8.  The code does not do what the claim says on a node without a
    child list: a text or comment node has no element among its children,
    and the accessor, which tests its argument for null but not the child
    list, throws where the claim has it return null. *)
Theorem first_element_child_throws (kind : CharKind) (data : string) :
  childNodesOf (CharacterData kind data) = None
  /\ getFirstElementChild (Some (CharacterData kind data)) = Throw
  /\ getFirstElementChild (Some (CharacterData kind data)) <> Return None
  /\ getFirstElementChild (Some (createTextNode data)) = Throw.
Proof.
  repeat split. discriminate.
Qed.

(** *** [initXmlDom] *)

Lemma own_get_app (l1 l2 : list (string * Property)) (name : string) :
  own_get (l1 ++ l2) name = or_else (own_get l1 name) (own_get l2 name).
Proof.
  induction l1 as [|[k p] l1 IH]; simpl.
  - destruct (own_get l2 name); reflexivity.
  - destruct (k =? name); [reflexivity | exact IH].
Qed.

Lemma own_get_names (l : list (string * Property)) (name : string) :
  own_get l name = None <-> ~ In name (map fst l).
Proof.
  induction l as [|[k p] l IH]; simpl; [tauto|].
  destruct (k =? name) eqn:Hk.
  - apply String.eqb_eq in Hk. split; [discriminate | tauto].
  - apply String.eqb_neq in Hk. rewrite IH. tauto.
Qed.

Lemma define_if_missing_spec (proto proto' : Prototype) (name : string)
  (get : option Getter) (set : option Setter) :
  define_if_missing proto name get set = Some proto' ->
  proto'
  = mkPrototype
      (own proto
         ++ (if hasOwnProperty proto name then []
             else [(name, new_property get set)]))
      (extensible proto).
Proof.
  unfold define_if_missing, Object_defineProperty, hasOwnProperty.
  destruct (own_get (own proto) name) eqn:Hget; cbn [negb].
  - intros [= <-]. rewrite app_nil_r. destruct proto; reflexivity.
  - destruct (extensible proto); [|discriminate].
    intros [= <-]. reflexivity.
Qed.

Lemma define_if_missing_total (proto : Prototype) (name : string)
  (get : option Getter) (set : option Setter) :
  extensible proto = true ->
  exists proto',
    define_if_missing proto name get set = Some proto'
    /\ extensible proto' = true.
Proof.
  intros Hext.
  unfold define_if_missing, Object_defineProperty, hasOwnProperty.
  destruct (own_get (own proto) name) eqn:Hget; cbn [negb].
  - exists proto. split; [reflexivity | exact Hext].
  - rewrite Hext. eexists. split; [reflexivity | reflexivity].
Qed.

Lemma hasOwnProperty_added (props : list (string * Property)) (x : bool)
  (added : list (string * Property)) (name : string) :
  ~ In name (map fst added) ->
  hasOwnProperty (mkPrototype (props ++ added) x) name
  = hasOwnProperty (mkPrototype props x) name.
Proof.
  intros H. unfold hasOwnProperty. cbn [own].
  rewrite own_get_app. apply own_get_names in H. rewrite H.
  destruct (own_get props name); reflexivity.
Qed.

(** What a call that returns leaves on the prototype: the own properties
    it found, followed by the shim properties that were missing. *)
Lemma initXmlDom_spec (IS_BROWSER : bool) (proto proto' : Prototype) :
  initXmlDom IS_BROWSER proto = Some proto' ->
  proto'
  = mkPrototype
      (own proto
         ++ map (fun name => (name, shim_property name))
              (missing IS_BROWSER proto))
      (extensible proto).
Proof.
  unfold initXmlDom, missing. destruct IS_BROWSER.
  { intros [= <-]. cbn [map]. rewrite app_nil_r. destruct proto; reflexivity. }
  destruct (define_if_missing proto "firstElementChild" _ _) as [p1|] eqn:H1;
    [|discriminate].
  cbn [bind].
  destruct (define_if_missing p1 "style" _ _) as [p2|] eqn:H2;
    [|discriminate].
  cbn [bind]. intros H3.
  apply define_if_missing_spec in H1, H2, H3. subst p1 p2 proto'.
  cbn [own extensible new_property].
  destruct proto as [props x]. cbn [own extensible].
  assert (Hs : hasOwnProperty
                 (mkPrototype
                    (props ++ (if hasOwnProperty (mkPrototype props x)
                                    "firstElementChild"
                               then []
                               else [("firstElementChild",
                                      AccessorProperty
                                        (Some firstElementChild_getter) None
                                        false)])) x) "style"
               = hasOwnProperty (mkPrototype props x) "style").
  { apply hasOwnProperty_added.
    destruct (hasOwnProperty (mkPrototype props x) "firstElementChild");
      simpl; intuition discriminate. }
  rewrite Hs.
  rewrite <- !app_assoc.
  rewrite (hasOwnProperty_added props x _ "classList").
  - unfold shim_names. cbn [filter].
    destruct (hasOwnProperty (mkPrototype props x) "firstElementChild");
      destruct (hasOwnProperty (mkPrototype props x) "style");
      destruct (hasOwnProperty (mkPrototype props x) "classList");
      reflexivity.
  - destruct (hasOwnProperty (mkPrototype props x) "firstElementChild");
      destruct (hasOwnProperty (mkPrototype props x) "style");
      simpl; intuition discriminate.
Qed.

Lemma missing_names (IS_BROWSER : bool) (proto : Prototype) (name : string) :
  In name (missing IS_BROWSER proto) <->
  IS_BROWSER = false /\ In name shim_names
  /\ hasOwnProperty proto name = false.
Proof.
  unfold missing. destruct IS_BROWSER.
  - simpl. split; [tauto | intros [H _]; discriminate].
  - rewrite filter_In, negb_true_iff. tauto.
Qed.

Lemma own_get_shim (names : list string) (name : string) :
  own_get (map (fun n => (n, shim_property n)) names) name
  = if in_dec string_dec name names then Some (shim_property name) else None.
Proof.
  induction names as [|n names IH]; simpl; [reflexivity|].
  destruct (n =? name) eqn:Hn.
  - apply String.eqb_eq in Hn. subst n.
    destruct (string_dec name name); [reflexivity | contradiction].
  - apply String.eqb_neq in Hn. rewrite IH.
    destruct (string_dec n name); [contradiction|].
    destruct (in_dec string_dec name names); reflexivity.
Qed.

(** C7.  A call of [initXmlDom] that returns leaves a prototype on which a
    second call returns too and changes nothing; it never replaces a
    property the prototype already owns, and touches no other name; outside
    a browser the three shim properties are own properties afterwards, each
    of them the shim's accessor exactly when it was missing; the names of
    the own properties stay without duplicates.  On an extensible prototype
    the call returns. *)
Theorem initXmlDom_idempotent (IS_BROWSER : bool) (proto proto' : Prototype) :
  initXmlDom IS_BROWSER proto = Some proto' ->
  initXmlDom IS_BROWSER proto' = Some proto'
  /\ (forall name p,
        own_get (own proto) name = Some p ->
        own_get (own proto') name = Some p)
  /\ (forall name,
        ~ In name shim_names ->
        own_get (own proto') name = own_get (own proto) name)
  /\ (IS_BROWSER = false ->
      forall name,
        In name shim_names ->
        hasOwnProperty proto' name = true
        /\ (hasOwnProperty proto name = false ->
            own_get (own proto') name = Some (shim_property name)))
  /\ (IS_BROWSER = true -> proto' = proto)
  /\ (NoDup (map fst (own proto)) -> NoDup (map fst (own proto')))
  /\ (forall other,
        extensible other = true ->
        exists result, initXmlDom IS_BROWSER other = Some result).
Proof.
  intros Hinit. pose proof (initXmlDom_spec _ _ _ Hinit) as Hspec.
  assert (Hown : forall name,
             own_get (own proto') name
             = or_else (own_get (own proto) name)
                 (if in_dec string_dec name (missing IS_BROWSER proto)
                  then Some (shim_property name) else None)).
  { intros name. rewrite Hspec. cbn [own].
    rewrite own_get_app, own_get_shim. reflexivity. }
  assert (Hhas : IS_BROWSER = false ->
                 forall name, In name shim_names ->
                              hasOwnProperty proto' name = true).
  { intros Hb name Hname. unfold hasOwnProperty. rewrite Hown.
    destruct (own_get (own proto) name) eqn:Hget; [reflexivity|].
    destruct (in_dec string_dec name (missing IS_BROWSER proto)) as [|Hn];
      [reflexivity|].
    exfalso. apply Hn. apply missing_names.
    unfold hasOwnProperty. rewrite Hget. tauto. }
  split.
  { destruct IS_BROWSER; [reflexivity|].
    unfold initXmlDom, define_if_missing.
    rewrite (Hhas eq_refl "firstElementChild") by (simpl; tauto).
    cbn [negb bind].
    rewrite (Hhas eq_refl "style") by (simpl; tauto).
    cbn [negb bind].
    rewrite (Hhas eq_refl "classList") by (simpl; tauto).
    reflexivity. }
  split.
  { intros name p Hp. rewrite Hown, Hp. reflexivity. }
  split.
  { intros name Hname. rewrite Hown.
    destruct (in_dec string_dec name (missing IS_BROWSER proto)) as [Hin|].
    - apply missing_names in Hin. tauto.
    - destruct (own_get (own proto) name); reflexivity. }
  split.
  { intros Hb name Hname. split; [apply Hhas; assumption|].
    intros Hmiss. rewrite Hown.
    unfold hasOwnProperty in Hmiss.
    destruct (own_get (own proto) name) eqn:Hget; [discriminate|].
    destruct (in_dec string_dec name (missing IS_BROWSER proto)) as [|Hn];
      [reflexivity|].
    exfalso. apply Hn. apply missing_names.
    unfold hasOwnProperty. rewrite Hget. tauto. }
  split.
  { intros ->. unfold initXmlDom in Hinit. congruence. }
  split.
  { intros Hnd. rewrite Hspec. cbn [own].
    rewrite map_app, map_map. cbn [fst]. rewrite map_id.
    apply NoDup_app.
    - exact Hnd.
    - unfold missing. destruct IS_BROWSER; [constructor|].
      apply NoDup_filter. unfold shim_names.
      repeat constructor; simpl; intuition discriminate.
    - intros name Hin Hmiss. apply missing_names in Hmiss.
      destruct Hmiss as (_ & _ & Hmiss).
      unfold hasOwnProperty in Hmiss.
      destruct (own_get (own proto) name) eqn:Hget; [discriminate|].
      apply own_get_names in Hget. contradiction. }
  intros other Hext. unfold initXmlDom.
  destruct IS_BROWSER; [eexists; reflexivity|].
  destruct (define_if_missing_total other "firstElementChild"
              (Some firstElementChild_getter) None Hext)
    as (p1 & -> & Hext1).
  cbn [bind].
  destruct (define_if_missing_total p1 "style"
              (Some style_getter) (Some style_setter) Hext1)
    as (p2 & -> & Hext2).
  cbn [bind].
  destruct (define_if_missing_total p2 "classList"
              (Some classList_getter) (Some classList_setter) Hext2)
    as (p3 & -> & _).
  eexists; reflexivity.
Qed.

Lemma initXmlDom_idempotent_witness :
  initXmlDom false bare_prototype = Some patched_prototype
  /\ initXmlDom false patched_prototype = Some patched_prototype
  /\ own_get (own patched_prototype) "nodeType" = Some (DataProperty true)
  /\ hasOwnProperty patched_prototype "classList" = true
  /\ NoDup (map fst (own patched_prototype)).
Proof.
  destruct (initXmlDom_idempotent false bare_prototype patched_prototype
              eq_refl)
    as (Hagain & Hkept & _ & Hshim & _ & Hnodup & _).
  split; [reflexivity|].
  split; [exact Hagain|].
  split; [exact (Hkept "nodeType" (DataProperty true) eq_refl)|].
  split.
  - apply (Hshim eq_refl "classList"). simpl. tauto.
  - apply Hnodup. repeat constructor; simpl; intuition discriminate.
Defined.

(** ** Further properties of the code *)

(** *** [kebabCase] *)

Lemma is_upper_toLowerCase (c : ascii) :
  is_upper c = true -> is_upper (toLowerCase c) = false.
Proof.
  intros H. unfold is_upper at 1. cbv zeta.
  rewrite (toLowerCase_code c H).
  unfold is_upper in H. apply andb_true_iff in H. destruct H as [H _].
  apply N.leb_le in H. apply andb_false_iff. right.
  apply N.leb_gt. lia.
Qed.

Lemma kebabCase_no_upper (s : string) :
  count_upper (kebabCase s) = 0.
Proof.
  induction s as [|c s IH]; simpl; [reflexivity|].
  destruct (is_upper c) eqn:Hc; simpl.
  - rewrite (is_upper_toLowerCase c Hc). exact IH.
  - rewrite Hc. exact IH.
Qed.

Lemma kebabCase_fixed (s : string) :
  count_upper s = 0 -> kebabCase s = s.
Proof.
  induction s as [|c s IH]; simpl; [reflexivity|].
  destruct (is_upper c); simpl; [discriminate|].
  intros H. rewrite IH by exact H. reflexivity.
Qed.

(** X1.  The result of [kebabCase] holds no upper-case ASCII letter, so a
    second conversion changes nothing; it is longer than the argument by
    one character for each upper-case letter, and it is the argument itself
    exactly when the argument holds none. *)
Theorem kebabCase_lower (s : string) :
  count_upper (kebabCase s) = 0
  /\ kebabCase (kebabCase s) = kebabCase s
  /\ String.length (kebabCase s) = String.length s + count_upper s
  /\ (kebabCase s = s <-> count_upper s = 0).
Proof.
  assert (Hlen : String.length (kebabCase s)
                 = String.length s + count_upper s).
  { induction s as [|c s IH]; simpl; [reflexivity|].
    destruct (is_upper c); simpl; rewrite IH; lia. }
  split; [apply kebabCase_no_upper|].
  split; [apply kebabCase_fixed; apply kebabCase_no_upper|].
  split; [exact Hlen|].
  split.
  - intros Heq. rewrite Heq in Hlen. lia.
  - apply kebabCase_fixed.
Qed.

Lemma length_string_app (s1 s2 : string) :
  String.length (s1 ++ s2) = String.length s1 + String.length s2.
Proof.
  induction s1 as [|c s1 IH]; simpl; [reflexivity|].
  rewrite IH. reflexivity.
Qed.

(** X2.  [kebabCase] does not tell an upper-case letter from a hyphen
    followed by the lower-case letter: the two names, which differ, are
    converted to the same string. *)
Theorem kebabCase_collision (before after : string) (c : ascii) :
  is_upper c = true ->
  (before ++ String c after)%string
  <> (before ++ String "-" (String (toLowerCase c) after))%string
  /\ kebabCase (before ++ String c after)
     = kebabCase (before ++ String "-" (String (toLowerCase c) after)).
Proof.
  intros Hc. split.
  - intros Heq.
    assert (Hlen : String.length (before ++ String c after)
                   = String.length
                       (before ++ String "-" (String (toLowerCase c) after)))
      by (rewrite Heq; reflexivity).
    rewrite !length_string_app in Hlen. simpl in Hlen. lia.
  - rewrite !kebabCase_app. f_equal. simpl.
    rewrite Hc, (is_upper_toLowerCase c Hc). reflexivity.
Qed.

Lemma kebabCase_collision_witness :
  kebabCase "fontSize" = kebabCase "font-size".
Proof.
  destruct (kebabCase_collision "font" "ize" "S" eq_refl) as [_ H].
  exact H.
Defined.

(** *** The tag rules *)

(** X3.  On an element whose tag name is [img] a non-empty image source
    is written as the [src] attribute and the scalar is cleared; an empty or
    unset one leaves both as they were; the spans of an image are never
    written, whatever they hold. *)
Theorem image_source_rule (e : Elem) :
  tagName e = "img" ->
  exists e',
    handleXmlNode (Element e) = Element e'
    /\ (forall s, src e = Some s -> s <> "" ->
        getAttribute e' "src" = Some s /\ src e' = None)
    /\ (truthy_string (src e) = false ->
        getAttribute e' "src" = getAttribute e "src" /\ src e' = src e)
    /\ getAttribute e' "rowspan" = getAttribute e "rowspan"
    /\ getAttribute e' "colspan" = getAttribute e "colspan".
Proof.
  intros Htag.
  assert (Hi : isImage e = true) by (apply isImage_iff; exact Htag).
  assert (Hc : isTableCell e = false)
    by (unfold isTableCell; rewrite Htag; reflexivity).
  destruct (handleXmlNode_Element_fields e)
    as (e' & He' & _ & Hattrs & _ & _ & _ & _ & _ & _ & _ & Hsrc).
  exists e'. unfold getAttribute. rewrite Hattrs, Hsrc.
  rewrite final_attrs_src, final_attrs_rowspan, final_attrs_colspan.
  rewrite Hi, Hc. cbn [negb andb].
  split; [exact He'|].
  split.
  { intros s Hs Hne. rewrite Hs. simpl.
    apply String.eqb_neq in Hne. rewrite Hne. simpl. split; reflexivity. }
  split; [intros ->; split; reflexivity|].
  split; reflexivity.
Qed.

Lemma image_source_rule_witness :
  exists e',
    handleXmlNode (Element img_with_source) = Element e'
    /\ getAttribute e' "src" = Some "data:image/png;base64,AAAA"
    /\ src e' = None
    /\ getAttribute e' "rowspan" = None.
Proof.
  destruct (image_source_rule img_with_source eq_refl)
    as (e' & He' & Hset & _ & Hrow & _).
  destruct (Hset "data:image/png;base64,AAAA" eq_refl) as [Ha Hs];
    [discriminate|].
  exists e'. repeat split; assumption.
Defined.

(** X4.  The image rule is the [else] of the table-cell test: on a table
    cell the image source is never written and never cleared, whatever it
    holds. *)
Theorem table_cell_keeps_source (e : Elem) :
  tagName e = "td" ->
  exists e',
    handleXmlNode (Element e) = Element e'
    /\ getAttribute e' "src" = getAttribute e "src"
    /\ src e' = src e.
Proof.
  intros Htag.
  assert (Hc : isTableCell e = true) by (apply isTableCell_iff; exact Htag).
  destruct (handleXmlNode_Element_fields e)
    as (e' & He' & _ & Hattrs & _ & _ & _ & _ & _ & _ & _ & Hsrc).
  exists e'. unfold getAttribute. rewrite Hattrs, Hsrc, final_attrs_src, Hc.
  cbn [negb andb]. repeat split. exact He'.
Qed.

Lemma table_cell_keeps_source_witness :
  exists e',
    handleXmlNode (Element cell_with_source) = Element e'
    /\ getAttribute e' "src" = None
    /\ src e' = Some "a.png".
Proof.
  exact (table_cell_keeps_source cell_with_source eq_refl).
Defined.

(** *** The attribute list *)

Lemma extends_refl (a : list (string * string)) : extends a a.
Proof.
  exists []. rewrite app_nil_r.
  split; [reflexivity|]. split; [constructor | intros n []].
Qed.

Lemma extends_trans (a b c : list (string * string)) :
  extends a b -> extends b c -> extends a c.
Proof.
  intros (x & Hx & Hndx & Hinx) (y & Hy & Hndy & Hiny).
  exists (x ++ y). split; [rewrite Hy, Hx, app_assoc; reflexivity|].
  split.
  - apply NoDup_app; try assumption.
    intros n Hn Hn'. destruct (Hiny n Hn') as [_ Hnot].
    apply Hnot. rewrite Hx. apply in_or_app. right. exact Hn.
  - intros n Hn. apply in_app_or in Hn. destruct Hn as [Hn | Hn].
    + apply Hinx. exact Hn.
    + destruct (Hiny n Hn) as [Hstd Hnot]. split; [exact Hstd|].
      intros Ha. apply Hnot. rewrite Hx. apply in_or_app. left. exact Ha.
Qed.

Lemma attr_set_extends (a : list (string * string)) (name value : string) :
  In name standard_names -> extends a (attr_set a name value).
Proof.
  intros Hstd. induction a as [|[k v] a IH]; simpl.
  - exists [name]. split; [reflexivity|].
    split; [repeat constructor; intros []|].
    intros n [<- | []]. split; [exact Hstd | intros []].
  - destruct (k =? name) eqn:Hk.
    + exists []. simpl. rewrite app_nil_r.
      split; [reflexivity|]. split; [constructor | intros n []].
    + destruct IH as (added & Hadd & Hnd & Hin).
      exists added. simpl. rewrite Hadd.
      split; [reflexivity|]. split; [exact Hnd|].
      intros n Hn. destruct (Hin n Hn) as [Hs Hnot].
      split; [exact Hs|]. intros [<- | Ha]; [|tauto].
      assert (Hnot' : ~ In k (map fst (attr_set a name value))).
      { intros Hk'. apply attr_set_names in Hk'.
        destruct Hk' as [-> | Hk']; [|tauto].
        rewrite String.eqb_refl in Hk. discriminate. }
      apply Hnot'. rewrite Hadd. apply in_or_app. right. exact Hn.
Qed.

Lemma span_attr_extends (name : string) (v : option Z)
  (a : list (string * string)) :
  In name standard_names -> extends a (span_attr name v a).
Proof.
  intros Hstd. unfold span_attr. destruct v as [r|]; [|apply extends_refl].
  destruct (r =? 0)%Z; [apply extends_refl|].
  apply attr_set_extends. exact Hstd.
Qed.

Lemma final_attrs_extends (e : Elem) :
  extends (attributes e) (final_attrs e).
Proof.
  unfold final_attrs.
  apply extends_trans with (b := className_attrs e (attributes e)).
  { unfold className_attrs. destruct (truthy_string (className e));
      [apply attr_set_extends; simpl; tauto | apply extends_refl]. }
  apply extends_trans
    with (b := classList_attrs e (className_attrs e (attributes e))).
  { unfold classList_attrs. destruct (_classList e);
      [apply attr_set_extends; simpl; tauto | apply extends_refl]. }
  apply extends_trans
    with (b := style_attrs e
                 (classList_attrs e (className_attrs e (attributes e)))).
  { unfold style_attrs. destruct (_style e);
      [apply attr_set_extends; simpl; tauto | apply extends_refl]. }
  unfold tag_attrs. destruct (isTableCell e).
  - apply extends_trans
      with (b := span_attr "rowspan" (rowSpan e)
                   (style_attrs e
                      (classList_attrs e (className_attrs e (attributes e)))));
      apply span_attr_extends; simpl; tauto.
  - destruct (isImage e && truthy_string (src e));
      [apply attr_set_extends; simpl; tauto | apply extends_refl].
Qed.

(** X5.  The pass removes and moves no attribute: the attribute names of
    an element after the pass are its names before, in the same places,
    followed by the names the rules added; the added names are among
    [class], [style], [rowspan], [colspan], [src], were not there before,
    and come once each, so names that were distinct stay distinct. *)
Theorem attributes_keep_their_place (e : Elem) :
  exists e' added,
    handleXmlNode (Element e) = Element e'
    /\ map fst (attributes e') = map fst (attributes e) ++ added
    /\ NoDup added
    /\ (forall n, In n added ->
                  In n standard_names /\ ~ In n (map fst (attributes e)))
    /\ (NoDup (map fst (attributes e)) -> NoDup (map fst (attributes e'))).
Proof.
  destruct (handleXmlNode_Element_fields e) as (e' & He' & _ & Hattrs & _).
  destruct (final_attrs_extends e) as (added & Hadd & Hnd & Hin).
  exists e', added. rewrite Hattrs.
  split; [exact He'|]. split; [exact Hadd|]. split; [exact Hnd|].
  split; [exact Hin|].
  intros Hnames. rewrite Hadd. apply NoDup_app; try assumption.
  intros n Hn Hn'. destruct (Hin n Hn') as [_ Hnot]. exact (Hnot Hn).
Qed.

Lemma attributes_keep_their_place_witness :
  exists e',
    handleXmlNode (Element div_tokens) = Element e'
    /\ NoDup (map fst (attributes e')).
Proof.
  destruct (attributes_keep_their_place div_tokens)
    as (e' & added & He' & _ & _ & _ & Hnd).
  exists e'. split; [exact He'|].
  apply Hnd. repeat constructor; simpl; tauto.
Defined.

(** *** The shape of the tree *)

Lemma nodeType_normal_form (n : Node) :
  nodeType (normal_form n) = nodeType n.
Proof. destruct n as [e | kind data]; reflexivity. Qed.

Lemma list_sum_map_ext {A : Type} (f g : A -> nat) (l : list A) :
  Forall (fun x => f x = g x) l ->
  list_sum (map f l) = list_sum (map g l).
Proof.
  induction 1 as [|x l Hx _ IH]; simpl; [reflexivity|].
  rewrite Hx, IH. reflexivity.
Qed.

Lemma list_sum_map_plus {A : Type} (f g : A -> nat) (l : list A) :
  list_sum (map (fun x => f x + g x) l)
  = list_sum (map f l) + list_sum (map g l).
Proof.
  induction l as [|x l IH]; simpl; [reflexivity|]. rewrite IH. lia.
Qed.

Lemma node_count_normal_form (n : Node) :
  node_count (normal_form n) = node_count n + markup_count n.
Proof.
  induction n as [e IH | kind data] using Node_children_ind;
    [|reflexivity].
  cbn [normal_form node_count markup_count set_childNodes childNodes].
  rewrite map_app, list_sum_app, map_map.
  rewrite (list_sum_map_ext _ (fun c => node_count c + markup_count c) _ IH).
  rewrite list_sum_map_plus.
  unfold appended_text. destruct (truthy_string (innerHTML e)); simpl; lia.
Qed.

Lemma element_count_normal_form (n : Node) :
  element_count (normal_form n) = element_count n.
Proof.
  induction n as [e IH | kind data] using Node_children_ind;
    [|reflexivity].
  cbn [normal_form element_count set_childNodes childNodes].
  rewrite map_app, list_sum_app, map_map.
  rewrite (list_sum_map_ext _ element_count _ IH).
  unfold appended_text. destruct (truthy_string (innerHTML e)); simpl; lia.
Qed.

(** X6.  The pass keeps every node and its kind: the tree after the pass
    has as many elements as before, and as many nodes as before plus one
    text node for each element that held injected markup; after it no
    element holds injected markup. *)
Theorem node_counts (n : Node) :
  nodeType (handleXmlNode n) = nodeType n
  /\ element_count (handleXmlNode n) = element_count n
  /\ node_count (handleXmlNode n) = node_count n + markup_count n
  /\ markup_count (handleXmlNode n) = 0.
Proof.
  rewrite handleXmlNode_normal_form.
  split; [apply nodeType_normal_form|].
  split; [apply element_count_normal_form|].
  split; [apply node_count_normal_form|].
  pose proof (node_count_normal_form (normal_form n)) as H.
  rewrite normal_form_idempotent in H. lia.
Qed.

(** X7.  The pass keeps the children of an element in their order: the
    child at an index is, after the pass, the result of the pass on that
    child, so a text or comment child is at the same index with the same
    data; the only new child comes after all of them. *)
Theorem children_keep_their_place (e : Elem) (i : nat) (c : Node) :
  nth_error (childNodes e) i = Some c ->
  exists e',
    handleXmlNode (Element e) = Element e'
    /\ tagName e' = tagName e
    /\ nth_error (childNodes e') i = Some (handleXmlNode c)
    /\ nodeType (handleXmlNode c) = nodeType c
    /\ (isElement c = false -> nth_error (childNodes e') i = Some c)
    /\ List.length (childNodes e) <= List.length (childNodes e')
       <= S (List.length (childNodes e)).
Proof.
  intros Hc.
  destruct (handleXmlNode_Element_fields e)
    as (e' & He' & Htag & _ & Hcs & _).
  exists e'. split; [exact He'|]. split; [exact Htag|].
  assert (Hnth : nth_error (childNodes e') i = Some (handleXmlNode c)).
  { rewrite Hcs, nth_error_app1.
    - rewrite nth_error_map, Hc. reflexivity.
    - rewrite length_map. apply nth_error_Some. rewrite Hc. discriminate. }
  split; [exact Hnth|].
  split; [rewrite handleXmlNode_normal_form; apply nodeType_normal_form|].
  split.
  - intros Hkind. rewrite Hnth. f_equal.
    destruct c as [x | kind data]; [discriminate Hkind|].
    apply handleXmlNode_CharacterData.
  - rewrite Hcs, length_app, length_map.
    unfold appended_text. destruct (truthy_string (innerHTML e)); simpl; lia.
Qed.

Lemma children_keep_their_place_witness :
  exists e',
    handleXmlNode (Element div_mixed) = Element e'
    /\ nth_error (childNodes e') 1 = Some (CharacterData COMMENT_NODE "c").
Proof.
  destruct (children_keep_their_place div_mixed 1
              (CharacterData COMMENT_NODE "c") eq_refl)
    as (e' & He' & _ & _ & _ & Hsame & _).
  exists e'. split; [exact He' | exact (Hsame eq_refl)].
Defined.

(** *** The accessors of the shim *)

(** X9.  The [style] and [classList] accessors: a read after a write of a
    mapping or list returns what was written and changes nothing; a read
    always leaves a backing value behind, which a second read returns
    again; a read after a write of [null] returns an empty value; and a
    read changes no other property of the element. *)
Theorem accessor_round_trip (e : Elem) :
  (forall o, get_style (put_style e (Some o)) = (o, put_style e (Some o)))
  /\ (forall l,
        get_classList (put_classList e (Some l))
        = (l, put_classList e (Some l)))
  /\ _style (snd (get_style e)) = Some (fst (get_style e))
  /\ _classList (snd (get_classList e)) = Some (fst (get_classList e))
  /\ get_style (snd (get_style e)) = get_style e
  /\ get_classList (snd (get_classList e)) = get_classList e
  /\ fst (get_style (put_style e None)) = []
  /\ fst (get_classList (put_classList e None)) = []
  /\ put_style (snd (get_style e)) (_style e) = e
  /\ put_classList (snd (get_classList e)) (_classList e) = e.
Proof.
  destruct e as [tag attrs cs cn cl ih st rs cspan sr].
  unfold get_style, put_style, get_classList, put_classList.
  repeat split; cbn; try (destruct st; reflexivity);
    try (destruct cl; reflexivity).
Qed.

(** X10.  A read of [style] or of [classList] on an element that has no
    style mapping or no token list is enough for the pass to write the
    attribute: [style] or [class] is then the empty string, where without
    the read the pass would have left the [style] attribute as it was. *)
Theorem read_then_normalize (e : Elem) :
  (_style e = None ->
   exists e' e'',
     handleXmlNode (Element (snd (get_style e))) = Element e'
     /\ getAttribute e' "style" = Some ""
     /\ handleXmlNode (Element e) = Element e''
     /\ getAttribute e'' "style" = getAttribute e "style")
  /\ (_classList e = None ->
      exists e',
        handleXmlNode (Element (snd (get_classList e))) = Element e'
        /\ getAttribute e' "class" = Some "").
Proof.
  split.
  - intros Hst.
    destruct (handleXmlNode_Element_fields (snd (get_style e)))
      as (e' & He' & _ & Hattrs & _).
    destruct (handleXmlNode_Element_fields e)
      as (e'' & He'' & _ & Hattrs'' & _).
    exists e', e''.
    split; [exact He'|]. split; [|split; [exact He''|]].
    + unfold getAttribute. rewrite Hattrs, final_attrs_style.
      unfold get_style. rewrite Hst. reflexivity.
    + unfold getAttribute. rewrite Hattrs'', final_attrs_style, Hst.
      reflexivity.
  - intros Hcl.
    destruct (handleXmlNode_Element_fields (snd (get_classList e)))
      as (e' & He' & _ & Hattrs & _).
    exists e'. split; [exact He'|].
    unfold getAttribute. rewrite Hattrs, final_attrs_class.
    unfold get_classList. rewrite Hcl. reflexivity.
Qed.

Lemma read_then_normalize_witness :
  exists e',
    handleXmlNode (Element (snd (get_style cell_2_3))) = Element e'
    /\ getAttribute e' "style" = Some "".
Proof.
  destruct (read_then_normalize cell_2_3) as [Hstyle _].
  destruct (Hstyle eq_refl) as (e' & _ & He' & Ha & _).
  exists e'. split; assumption.
Defined.

(** *** [getFirstElementChild] and the pass *)

Lemma first_element_map (cs extra : list Node) :
  Forall (fun t => isElement t = false) extra ->
  first_element (map normal_form cs ++ extra)
  = option_map normal_form (first_element cs).
Proof.
  intros Hextra. induction cs as [|c cs IH]; simpl.
  - apply first_element_none. exact Hextra.
  - rewrite nodeType_normal_form.
    destruct (nodeType c =? 1)%Z; [reflexivity | exact IH].
Qed.

(** X11.  The accessor and the pass commute: the first element child of
    an element after the pass is the result of the pass on its first
    element child before, and there is none after exactly when there was
    none before; the text node that the pass may add does not count. *)
Theorem first_element_child_after_pass (e : Elem) :
  getFirstElementChild (Some (handleXmlNode (Element e)))
  = Return (option_map handleXmlNode (first_element (childNodes e)))
  /\ (getFirstElementChild (Some (handleXmlNode (Element e))) = Return None
      <-> getFirstElementChild (Some (Element e)) = Return None).
Proof.
  assert (H : getFirstElementChild (Some (handleXmlNode (Element e)))
              = Return (option_map handleXmlNode
                          (first_element (childNodes e)))).
  { rewrite handleXmlNode_normal_form. cbn.
    rewrite first_element_map.
    - destruct (first_element (childNodes e)); simpl; [|reflexivity].
      rewrite handleXmlNode_normal_form. reflexivity.
    - unfold appended_text. destruct (truthy_string (innerHTML e));
        repeat constructor. }
  split; [exact H|].
  rewrite H. cbn.
  destruct (first_element (childNodes e)); simpl; split;
    intros Heq; try reflexivity; discriminate Heq.
Qed.

(** *** [initXmlDom] when it cannot add a property *)

Lemma define_if_missing_sealed (proto : Prototype) (name : string)
  (get : option Getter) (set : option Setter) :
  extensible proto = false ->
  define_if_missing proto name get set
  = if hasOwnProperty proto name then Some proto else None.
Proof.
  intros Hext.
  unfold define_if_missing, Object_defineProperty, hasOwnProperty.
  destruct (own_get (own proto) name) eqn:Hget; cbn [negb];
    [reflexivity|].
  rewrite Hext. reflexivity.
Qed.

(** X12.  [initXmlDom] throws exactly when it runs outside a browser on a
    prototype that is not extensible and lacks one of the three
    properties; in a browser, on an extensible prototype, or when the three
    are already there, it returns. *)
Theorem initXmlDom_throws (IS_BROWSER : bool) (proto : Prototype) :
  initXmlDom IS_BROWSER proto = None <->
  IS_BROWSER = false
  /\ extensible proto = false
  /\ exists name, In name shim_names /\ hasOwnProperty proto name = false.
Proof.
  destruct IS_BROWSER.
  { split; [discriminate | intros [H _]; discriminate]. }
  destruct (extensible proto) eqn:Hext.
  { split; [|intros (_ & H & _); discriminate].
    unfold initXmlDom.
    destruct (define_if_missing_total proto "firstElementChild"
                (Some firstElementChild_getter) None Hext)
      as (p1 & -> & Hext1).
    cbn [bind].
    destruct (define_if_missing_total p1 "style"
                (Some style_getter) (Some style_setter) Hext1)
      as (p2 & -> & Hext2).
    cbn [bind].
    destruct (define_if_missing_total p2 "classList"
                (Some classList_getter) (Some classList_setter) Hext2)
      as (p3 & -> & _).
    discriminate. }
  unfold initXmlDom.
  rewrite (define_if_missing_sealed proto "firstElementChild") by exact Hext.
  destruct (hasOwnProperty proto "firstElementChild") eqn:H1; cbn [bind].
  - rewrite (define_if_missing_sealed proto "style") by exact Hext.
    destruct (hasOwnProperty proto "style") eqn:H2; cbn [bind].
    + rewrite (define_if_missing_sealed proto "classList") by exact Hext.
      destruct (hasOwnProperty proto "classList") eqn:H3.
      * split; [discriminate|].
        intros (_ & _ & name & [<- | [<- | [<- | []]]] & Hmiss); congruence.
      * split; [|reflexivity]. intros _. repeat split.
        exists "classList". split; [simpl; tauto | exact H3].
    + split; [|reflexivity]. intros _. repeat split.
      exists "style". split; [simpl; tauto | exact H2].
  - split; [|reflexivity]. intros _. repeat split.
    exists "firstElementChild". split; [simpl; tauto | exact H1].
Qed.





(** *** The options *)

Lemma option_get_set_same (o : Options) (key : string) (value : JSValue) :
  option_get (option_set o key value) key = Some value.
Proof.
  induction o as [|[k v] o IH]; simpl.
  - rewrite String.eqb_refl. reflexivity.
  - destruct (k =? key) eqn:Hk; simpl; rewrite Hk; auto.
Qed.

Lemma option_get_set_other (o : Options) (key other : string)
  (value : JSValue) :
  key <> other ->
  option_get (option_set o key value) other = option_get o other.
Proof.
  intros Hne. induction o as [|[k v] o IH]; simpl.
  - apply String.eqb_neq in Hne. rewrite Hne. reflexivity.
  - destruct (k =? key) eqn:Hk; simpl.
    + apply String.eqb_eq in Hk. subst k.
      apply String.eqb_neq in Hne. rewrite Hne. reflexivity.
    + rewrite IH. reflexivity.
Qed.

Lemma option_get_none (o : Options) (key : string) :
  ~ In key (map fst o) -> option_get o key = None.
Proof.
  induction o as [|[k v] o IH]; simpl; [reflexivity|].
  intros H. destruct (k =? key) eqn:Hk.
  - apply String.eqb_eq in Hk. tauto.
  - apply IH. tauto.
Qed.

Lemma insert_index_In (x y : N * string) (l : list (N * string)) :
  In x (insert_index y l) <-> x = y \/ In x l.
Proof.
  induction l as [|z l IH]; simpl; [intuition congruence|].
  destruct (fst y <=? fst z)%N; simpl; [intuition congruence|].
  rewrite IH. intuition congruence.
Qed.

Lemma ordered_keys_In (ks : list string) (key : string) :
  In key (ordered_keys ks) -> In key ks.
Proof.
  unfold ordered_keys. intros H. apply in_app_or in H.
  destruct H as [H | H].
  - apply in_map_iff in H. destruct H as ([n k] & Hk & H).
    simpl in Hk. subst k.
    induction ks as [|k ks IH]; simpl in *; [contradiction|].
    destruct (array_index k).
    + apply insert_index_In in H. destruct H as [[= _ ->] | H]; auto.
    + auto.
  - apply filter_In in H. tauto.
Qed.

Lemma copy_properties_get (source : Options) (key : string) :
  forall (keys : list string) (target : Options),
    (In key (map fst source) -> In key keys) ->
    (forall k, In k keys -> In k (map fst source)) ->
    option_get
      (fold_left
         (fun acc k =>
            match option_get source k with
            | Some v => option_set acc k v
            | None => acc
            end)
         keys target)
      key
    = match option_get source key with
      | Some v => Some v
      | None => option_get target key
      end.
Proof.
  intros keys target Hall Hsub.
  assert (Hgen : forall (ks : list string) (t : Options),
             option_get
               (fold_left
                  (fun acc k =>
                     match option_get source k with
                     | Some v => option_set acc k v
                     | None => acc
                     end)
                  ks t)
               key
             = if in_dec string_dec key ks
               then match option_get source key with
                    | Some v => Some v
                    | None => option_get t key
                    end
               else option_get t key).
  { induction ks as [|k ks IH]; intros t; [reflexivity|].
    cbn [fold_left]. rewrite IH.
    destruct (string_dec k key) as [-> | Hne].
    - destruct (in_dec string_dec key (key :: ks)) as [_ | Hn];
        [|exfalso; apply Hn; left; reflexivity].
      destruct (option_get source key) as [v|] eqn:Hv.
      + rewrite option_get_set_same.
        destruct (in_dec string_dec key ks); reflexivity.
      + destruct (in_dec string_dec key ks); reflexivity.
    - assert (Hsame : option_get
                        match option_get source k with
                        | Some v => option_set t k v
                        | None => t
                        end key
                      = option_get t key).
      { destruct (option_get source k);
          [apply option_get_set_other; exact Hne | reflexivity]. }
      rewrite Hsame.
      destruct (in_dec string_dec key ks) as [Hin | Hnin];
        destruct (in_dec string_dec key (k :: ks)) as [Hin' | Hnin'];
        try reflexivity.
      + exfalso. apply Hnin'. right. exact Hin.
      + exfalso. destruct Hin' as [-> | Hin']; [apply Hne; reflexivity|].
        exact (Hnin Hin'). }
  rewrite Hgen.
  destruct (in_dec string_dec key keys) as [_ | Hnin]; [reflexivity|].
  rewrite (option_get_none source key); [reflexivity|].
  intros Hin. apply Hnin. apply Hall. exact Hin.
Qed.

Lemma ordered_keys_complete (ks : list string) (key : string) :
  In key ks -> In key (ordered_keys ks).
Proof.
  intros Hin. unfold ordered_keys. apply in_or_app.
  destruct (array_index key) as [n|] eqn:Hidx.
  - left. apply in_map_iff. exists (n, key). split; [reflexivity|].
    induction ks as [|k ks IH]; simpl in *; [contradiction|].
    destruct Hin as [-> | Hin].
    + rewrite Hidx. apply insert_index_In. left. reflexivity.
    + destruct (array_index k); [apply insert_index_In; right|]; auto.
  - right. apply filter_In. split; [exact Hin|].
    unfold is_index. rewrite Hidx. reflexivity.
Qed.

Lemma copy_properties_lookup (target source : Options) (key : string) :
  option_get (copy_properties target source) key
  = match option_get source key with
    | Some v => Some v
    | None => option_get target key
    end.
Proof.
  unfold copy_properties. apply copy_properties_get.
  - apply ordered_keys_complete.
  - intros k. apply ordered_keys_In.
Qed.

(** X14.  In the options that [parseAsync] and [renderDocument] pass on,
    every key that the caller's object owns has the caller's value, also
    when that value is [undefined], and every other key has its default;
    without a caller's object the options are the defaults. *)
Theorem merge_options_lookup (userOptions : option Options) (key : string) :
  option_get (merge_options userOptions) key
  = match userOptions with
    | Some user =>
        match option_get user key with
        | Some v => Some v
        | None => option_get defaultOptions key
        end
    | None => option_get defaultOptions key
    end
  /\ merge_options None = defaultOptions
  /\ (forall user,
        userOptions = Some user ->
        option_get user key = Some JSUndefined ->
        option_get (merge_options userOptions) key = Some JSUndefined).
Proof.
  assert (Hdef : forall k,
             option_get (copy_properties [] defaultOptions) k
             = option_get defaultOptions k).
  { intros k. rewrite copy_properties_lookup.
    destruct (option_get defaultOptions k); reflexivity. }
  assert (Hlookup :
            option_get (merge_options userOptions) key
            = match userOptions with
              | Some user =>
                  match option_get user key with
                  | Some v => Some v
                  | None => option_get defaultOptions key
                  end
              | None => option_get defaultOptions key
              end).
  { unfold merge_options. destruct userOptions as [user|]; [|apply Hdef].
    rewrite copy_properties_lookup, Hdef. reflexivity. }
  split; [exact Hlookup|]. split; [reflexivity|].
  intros user -> Hundef. rewrite Hlookup, Hundef. reflexivity.
Qed.

Lemma merge_options_lookup_witness :
  option_get (merge_options (Some user_options)) "className"
  = Some JSUndefined.
Proof.
  destruct (merge_options_lookup (Some user_options) "className")
    as (_ & _ & H).
  exact (H user_options eq_refl eq_refl).
Defined.

(** *** The entry points *)

Lemma node_in_normal_form_settled (root : Node) (e' : Elem) :
  node_in (Element e') (normal_form root) -> settled e'.
Proof.
  intros Hin.
  destruct (node_in_normal_form root e' Hin) as (e & _ & Hnf).
  cbn [normal_form] in Hnf. injection Hnf as <-.
  apply element_rules_settled.
Qed.

(** X15.  Outside a browser the element that [renderToHtmlElementAsync]
    resolves to is the renderer's root after the pass: the parser and the
    renderer both got the merged options, a second pass over the result
    changes nothing, and no rule has anything left to do on any of its
    elements.  In a browser the result is the renderer's root as it is. *)
Theorem renderToHtmlElementAsync_resolved
  {Data Doc Err : Type}
  (load : Data -> Options -> Promise Err Doc)
  (render : Doc -> Elem -> Options -> Promise Err Elem)
  (IS_BROWSER : bool) (data : Data) (userOptions : option Options)
  (result : Node) :
  renderToHtmlElementAsync load render IS_BROWSER data userOptions
  = Resolved result ->
  exists doc root,
    load data (merge_options userOptions) = Resolved doc
    /\ render doc (createElement "div") (merge_options userOptions)
       = Resolved root
    /\ result
       = (if IS_BROWSER then Element root else handleXmlNode (Element root))
    /\ (IS_BROWSER = false ->
        handleXmlNode result = result
        /\ forall e', node_in (Element e') result -> settled e').
Proof.
  unfold renderToHtmlElementAsync, renderAsync, parseAsync, renderDocument.
  intros Hrun.
  destruct (load data (merge_options userOptions)) as [doc | reason] eqn:Hl;
    [|destruct IS_BROWSER; discriminate Hrun].
  cbn [await] in Hrun.
  destruct (render doc (createElement "div") (merge_options userOptions))
    as [root | reason] eqn:Hr;
    [|destruct IS_BROWSER; discriminate Hrun].
  cbn [await snd] in Hrun.
  exists doc, root. split; [reflexivity|]. split; [exact Hr|].
  split; [destruct IS_BROWSER; congruence|].
  intros ->. injection Hrun as <-.
  rewrite !handleXmlNode_normal_form. split.
  - apply normal_form_idempotent.
  - intros e'. apply node_in_normal_form_settled.
Qed.

Lemma renderToHtmlElementAsync_resolved_witness :
  handleXmlNode sample_tree_normalized = sample_tree_normalized.
Proof.
  destruct (renderToHtmlElementAsync_resolved
              (Err := string)
              (fun (_ : unit) (_ : Options) => Resolved tt)
              (fun (_ : unit) (_ : Elem) (_ : Options) =>
                 Resolved
                   (match sample_tree with
                    | Element e => e
                    | CharacterData _ _ => createElement "div"
                    end))
              false tt None sample_tree_normalized eq_refl)
    as (doc & root & _ & _ & _ & Hfix).
  exact (proj1 (Hfix eq_refl)).
Defined.

Lemma renderToHtmlElementAsync_cases
  {Data Doc Err : Type}
  (load : Data -> Options -> Promise Err Doc)
  (render : Doc -> Elem -> Options -> Promise Err Elem)
  (IS_BROWSER : bool) (data : Data) (userOptions : option Options) :
  renderToHtmlElementAsync load render IS_BROWSER data userOptions
  = match load data (merge_options userOptions) with
    | Resolved doc =>
        match
          render doc (createElement "div") (merge_options userOptions)
        with
        | Resolved root =>
            Resolved (if IS_BROWSER then Element root
                      else handleXmlNode (Element root))
        | Rejected reason => Rejected reason
        end
    | Rejected reason => Rejected reason
    end.
Proof.
  unfold renderToHtmlElementAsync, renderAsync, parseAsync, renderDocument.
  destruct IS_BROWSER;
    (destruct (load data (merge_options userOptions)) as [doc|];
     [|reflexivity]; cbn [await];
     destruct (render doc (createElement "div") (merge_options userOptions));
     reflexivity).
Qed.

Lemma renderToHtmlAsync_cases
  {Data Doc Err : Type}
  (load : Data -> Options -> Promise Err Doc)
  (render : Doc -> Elem -> Options -> Promise Err Elem)
  (serializeToString outerHTML : Node -> string)
  (IS_BROWSER : bool) (data : Data) (userOptions : option Options) :
  renderToHtmlAsync load render serializeToString outerHTML
    IS_BROWSER data userOptions
  = match
      renderToHtmlElementAsync load render IS_BROWSER data userOptions
    with
    | Resolved root =>
        Resolved (if IS_BROWSER then outerHTML root
                  else serializeToString root)
    | Rejected reason => Rejected reason
    end.
Proof.
  unfold renderToHtmlAsync.
  destruct IS_BROWSER;
    destruct (renderToHtmlElementAsync load render _ data userOptions);
    reflexivity.
Qed.

(** X16.  The entry points add no failure and hide none: the call is
    rejected exactly when the parser is rejected, or the parser resolves
    and the renderer is rejected, with that reason; and the text that
    [renderToHtmlAsync] resolves to is the printed form, by [outerHTML] in
    a browser and by the serializer outside, of the element that
    [renderToHtmlElementAsync] resolves to. *)
Theorem renderToHtmlAsync_outcome
  {Data Doc Err : Type}
  (load : Data -> Options -> Promise Err Doc)
  (render : Doc -> Elem -> Options -> Promise Err Elem)
  (serializeToString outerHTML : Node -> string)
  (IS_BROWSER : bool) (data : Data) (userOptions : option Options) :
  (forall reason,
      renderToHtmlAsync load render serializeToString outerHTML
        IS_BROWSER data userOptions = Rejected reason
      <-> (load data (merge_options userOptions) = Rejected reason
           \/ exists doc,
               load data (merge_options userOptions) = Resolved doc
               /\ render doc (createElement "div")
                    (merge_options userOptions) = Rejected reason))
  /\ (forall text,
        renderToHtmlAsync load render serializeToString outerHTML
          IS_BROWSER data userOptions = Resolved text
        <-> exists root,
            renderToHtmlElementAsync load render IS_BROWSER data userOptions
            = Resolved root
            /\ text = (if IS_BROWSER then outerHTML root
                       else serializeToString root)).
Proof.
  rewrite renderToHtmlAsync_cases, renderToHtmlElementAsync_cases.
  destruct (load data (merge_options userOptions)) as [doc | r0] eqn:Hl.
  - destruct (render doc (createElement "div") (merge_options userOptions))
      as [root | r1] eqn:Hr.
    + split.
      * intros reason. split; [discriminate|].
        intros [H | (d & H & H')]; [discriminate|].
        injection H as <-. rewrite Hr in H'. discriminate.
      * intros text. split.
        -- intros [= <-]. eexists. split; reflexivity.
        -- intros (x & [= <-] & ->). reflexivity.
    + split.
      * intros reason. split.
        -- intros [= <-]. right. exists doc. split; [reflexivity | exact Hr].
        -- intros [H | (d & H & H')]; [discriminate|].
           injection H as <-. congruence.
      * intros text. split; [discriminate|].
        intros (x & H & _). discriminate.
  - split.
    + intros reason. split.
      * intros [= <-]. left. reflexivity.
      * intros [H | (d & H & _)]; [congruence | discriminate].
    + intros text. split; [discriminate|].
      intros (x & H & _). discriminate.
Qed.

Lemma renderToHtmlAsync_outcome_witness :
  renderToHtmlAsync
    (fun (_ : unit) (_ : Options) => Rejected "not a document")
    (fun (_ : unit) (root : Elem) (_ : Options) => Resolved root)
    (fun _ => "") (fun _ => "") false tt None
  = Rejected "not a document".
Proof.
  apply (proj1 (renderToHtmlAsync_outcome
                  (Doc := unit)
                  (fun (_ : unit) (_ : Options) => Rejected "not a document")
                  (fun (_ : unit) (root : Elem) (_ : Options) =>
                     Resolved root)
                  (fun _ => "") (fun _ => "") false tt None)).
  left. reflexivity.
Defined.

(** *** Every node stays on its path *)

Lemma node_at_character_data (path : list nat) (kind : CharKind)
  (data : string) (t : Node) :
  node_at path (CharacterData kind data) = Some t ->
  path = [] /\ t = CharacterData kind data.
Proof.
  destruct path as [|i rest]; simpl; [|discriminate].
  intros [= <-]. split; reflexivity.
Qed.

Lemma node_at_normal_form (path : list nat) :
  forall n m,
    node_at path n = Some m ->
    node_at path (normal_form n) = Some (normal_form m).
Proof.
  induction path as [|i rest IH]; intros n m Hm.
  - simpl in *. injection Hm as <-. reflexivity.
  - destruct n as [e | kind data]; [|discriminate Hm].
    cbn [node_at normal_form set_childNodes childNodes] in *.
    destruct (nth_error (childNodes e) i) as [c|] eqn:Hc; [|discriminate Hm].
    rewrite nth_error_app1
      by (rewrite length_map; apply nth_error_Some; rewrite Hc; discriminate).
    rewrite nth_error_map, Hc. cbn [option_map]. apply IH. exact Hm.
Qed.

Lemma node_at_normal_form_new (path : list nat) :
  forall n t,
    node_at path n = None ->
    node_at path (normal_form n) = Some t ->
    exists parent e s,
      path = parent ++ [List.length (childNodes e)]
      /\ node_at parent n = Some (Element e)
      /\ innerHTML e = Some s /\ s <> ""
      /\ t = CharacterData TEXT_NODE s.
Proof.
  induction path as [|i rest IH]; intros n t Hnone Ht;
    [discriminate Hnone|].
  destruct n as [e | kind data]; [|discriminate Ht].
  cbn [node_at normal_form set_childNodes childNodes] in *.
  destruct (nth_error (childNodes e) i) as [c|] eqn:Hc.
  - rewrite nth_error_app1 in Ht
      by (rewrite length_map; apply nth_error_Some; rewrite Hc; discriminate).
    rewrite nth_error_map, Hc in Ht. cbn [option_map] in Ht.
    destruct (IH c t Hnone Ht) as (parent & x & s & -> & Hp & Hs & Hne & ->).
    exists (i :: parent), x, s. cbn [node_at app]. rewrite Hc.
    repeat split; assumption.
  - apply nth_error_None in Hc.
    rewrite nth_error_app2 in Ht by (rewrite length_map; exact Hc).
    rewrite length_map in Ht.
    unfold appended_text in Ht.
    destruct (truthy_string (innerHTML e)) eqn:Htruthy;
      [|destruct (i - List.length (childNodes e)); discriminate Ht].
    destruct (i - List.length (childNodes e)) as [|k] eqn:Hi;
      [|destruct k; discriminate Ht].
    cbn [nth_error] in Ht. unfold createTextNode in Ht.
    apply node_at_character_data in Ht. destruct Ht as [-> ->].
    assert (i = List.length (childNodes e)) by lia. subst i.
    destruct (innerHTML e) as [s|] eqn:Hs; [|discriminate Htruthy].
    exists [], e, s. cbn [app node_at string_value].
    split; [reflexivity|]. split; [reflexivity|]. split; [exact Hs|].
    split; [|reflexivity].
    intros ->. discriminate Htruthy.
Qed.

(** X17.  Every node stays on its path: the node that a sequence of child
    indices reaches before the pass is, after it, at the end of the same
    sequence, as the pass returns it, and unchanged if it is a text,
    comment or other character-data node; nothing is dropped, copied or
    moved.  A path that reaches nothing before the pass reaches something
    after it only as the new last child of an element that held non-empty
    injected markup, and what it reaches is the text node of that markup. *)
Theorem nodes_keep_their_paths (path : list nat) (n : Node) :
  (forall m,
      node_at path n = Some m ->
      node_at path (handleXmlNode n) = Some (handleXmlNode m)
      /\ (isElement m = false -> node_at path (handleXmlNode n) = Some m))
  /\ (forall t,
        node_at path n = None ->
        node_at path (handleXmlNode n) = Some t ->
        exists parent e s,
          path = parent ++ [List.length (childNodes e)]
          /\ node_at parent n = Some (Element e)
          /\ innerHTML e = Some s /\ s <> ""
          /\ t = CharacterData TEXT_NODE s).
Proof.
  split.
  - intros m Hm.
    assert (H : node_at path (handleXmlNode n) = Some (handleXmlNode m)).
    { rewrite !handleXmlNode_normal_form. apply node_at_normal_form.
      exact Hm. }
    split; [exact H|].
    intros Hkind. rewrite H. f_equal.
    destruct m as [x | kind data]; [discriminate Hkind|].
    apply handleXmlNode_CharacterData.
  - intros t Hnone Ht. rewrite handleXmlNode_normal_form in Ht.
    exact (node_at_normal_form_new path n t Hnone Ht).
Qed.

Lemma nodes_keep_their_paths_witness :
  node_at [1] (handleXmlNode sample_tree)
  = Some (CharacterData COMMENT_NODE "c")
  /\ exists parent e s,
      [0; 0] = parent ++ [List.length (childNodes e)]
      /\ node_at parent sample_tree = Some (Element e)
      /\ innerHTML e = Some s /\ s <> ""
      /\ CharacterData TEXT_NODE "Hello & <b>" = CharacterData TEXT_NODE s.
Proof.
  destruct (nodes_keep_their_paths [1] sample_tree) as [Hkeep _].
  destruct (nodes_keep_their_paths [0; 0] sample_tree) as [_ Hnew].
  split.
  - exact (proj2 (Hkeep (CharacterData COMMENT_NODE "c") eq_refl) eq_refl).
  - exact (Hnew (CharacterData TEXT_NODE "Hello & <b>") eq_refl eq_refl).
Defined.
